(** * Diabetes dashboard (app.py): filtering and aggregation pipeline

    The script loads a CSV into a pandas data frame, keeps the rows chosen
    by five sidebar multiselects, derives a [comorbidity] column with
    [np.select] and feeds group-wise means and a correlation matrix to the
    charts.  This development embeds that pipeline and proves its
    properties.

    Modelling conventions.
    - A data frame is a list of typed rows (the CSV schema) plus the string
      columns added later by [df[name] = ...]; a Series is a list.
    - Integer columns are [Z]; decimal columns are [Q] (a CSV decimal is a
      rational).  Means are exact rationals.  The Pearson coefficient is
      given twice: over the reals ([pearson], where [None] stands for
      NaN), and in float64 as the library computes it (module [F64]).
    - Python objects live in a heap of frames addressed by object ids, and
      the script runs in a state-and-exception monad over that heap. *)

From Stdlib Require Import String Ascii ZArith QArith Qreals Reals Lia Lra
  Bool Arith Permutation Sorted List.
From Stdlib Require OrderedTypeEx PrimFloat FloatOps.
Import ListNotations.

Local Open Scope string_scope.
Local Open Scope list_scope.
Local Open Scope Z_scope.

Set Implicit Arguments.

(* ================================================================== *)
(** ** Data model *)

(** One row of [diabetes_clean.csv]. *)
Record Row : Type := mkRow {
  gender : string;
  age : Q;
  age_group : string;
  smoking_history : string;
  hypertension : Z;
  heart_disease : Z;
  bmi : Q;
  HbA1c_level : Q;
  blood_glucose_level : Q;
  diabetes : Z
}.

(** The values returned by the five [st.sidebar.multiselect] widgets. *)
Record FilterSelection : Type := mkSelection {
  gender_filter : list string;
  age_group_filter : list string;
  smoking_filter : list string;
  heart_disease_filter : list Z;
  hypertension_filter : list Z
}.

(** A frame: the CSV rows and the columns assigned afterwards, in order. *)
Record DataFrame : Type := mkFrame {
  rows : list Row;
  extra : list (string * list string)
}.

(* ================================================================== *)
(** ** Series operations *)

(** [df[name]] for a CSV column: the projection of every row. *)
Definition col {A} (f : Row -> A) (d : DataFrame) : list A :=
  map f (rows d).

(** [Series.isin(values)] *)
Definition isin {A} (eqb : A -> A -> bool) (s : list A) (values : list A)
  : list bool :=
  map (fun v => existsb (eqb v) values) s.

(** [Series == scalar] on an integer column. *)
Definition series_eq (s : list Z) (k : Z) : list bool :=
  map (fun v => Z.eqb v k) s.

(** [a & b] on boolean Series. *)
Definition series_and (a b : list bool) : list bool :=
  map (fun p => andb (fst p) (snd p)) (combine a b).

Infix "&&&" := series_and (at level 40, left associativity).

(** Keep the positions where the mask is [True]. *)
Fixpoint select_rows {A} (l : list A) (mask : list bool) : list A :=
  match l, mask with
  | x :: l', b :: mask' =>
      if b then x :: select_rows l' mask' else select_rows l' mask'
  | _, _ => []
  end.

(** The boolean mask of lines 21-27. *)
Definition filter_mask (d : DataFrame) (sel : FilterSelection) : list bool :=
  isin String.eqb (col gender d) (gender_filter sel) &&&
  isin String.eqb (col age_group d) (age_group_filter sel) &&&
  isin String.eqb (col smoking_history d) (smoking_filter sel) &&&
  isin Z.eqb (col heart_disease d) (heart_disease_filter sel) &&&
  isin Z.eqb (col hypertension d) (hypertension_filter sel).

(** The five memberships of one row, as a predicate. *)
Definition selected (sel : FilterSelection) (r : Row) : Prop :=
  In (gender r) (gender_filter sel) /\
  In (age_group r) (age_group_filter sel) /\
  In (smoking_history r) (smoking_filter sel) /\
  In (heart_disease r) (heart_disease_filter sel) /\
  In (hypertension r) (hypertension_filter sel).

Definition selectedb (sel : FilterSelection) (r : Row) : bool :=
  existsb (String.eqb (gender r)) (gender_filter sel) &&
  existsb (String.eqb (age_group r)) (age_group_filter sel) &&
  existsb (String.eqb (smoking_history r)) (smoking_filter sel) &&
  existsb (Z.eqb (heart_disease r)) (heart_disease_filter sel) &&
  existsb (Z.eqb (hypertension r)) (hypertension_filter sel).

(* ================================================================== *)
(** ** Exceptions, [np.select] *)

Inductive PyError : Type :=
| KeyError (name : string)
| ValueError (msg : string)
| ReferenceError (o : nat).

(** [np.copyto(result, choice, where=cond)] with a scalar [choice]. *)
Definition copyto {A} (result : list A) (choice : A) (cond : list bool)
  : list A :=
  map (fun p : A * bool => if snd p then choice else fst p)
      (combine result cond).

(** [np.select(condlist, choicelist, default)] with scalar choices.  numpy
    rejects lists of different lengths and an empty condition list, fills
    the result with [default] and then copies the choices in REVERSE order,
    so that the first condition that holds is the one that remains. *)
Definition np_select {A} (condlist : list (list bool)) (choicelist : list A)
    (default : A) : PyError + list A :=
  if negb (length condlist =? length choicelist)%nat then
    inl (ValueError "list of cases must be same length as list of conditions")
  else
    match condlist with
    | [] => inl (ValueError "select with an empty condition list is not possible")
    | c :: _ =>
        let n := length c in
        if forallb (fun c' => (length c' =? n)%nat) condlist then
          inr (fold_right (fun cc result => copyto result (snd cc) (fst cc))
                          (repeat default n) (combine condlist choicelist))
        else inl (ValueError "shape mismatch")
    end.

(** Lines 81-85. *)
Definition conditions (d : DataFrame) : list (list bool) :=
  [ series_eq (col hypertension d) 1 &&& series_eq (col heart_disease d) 1;
    series_eq (col hypertension d) 1;
    series_eq (col heart_disease d) 1 ].

(** Line 86. *)
Definition choices : list string :=
  ["Both"; "Hypertension Only"; "Heart Disease Only"].

(** The right-hand side of line 87. *)
Definition comorbidity (d : DataFrame) : PyError + list string :=
  np_select (conditions d) choices "None".

(** The classifier in the words of the specification: ordered predicates,
    the first that holds decides. *)
Definition classify (r : Row) : string :=
  if (hypertension r =? 1) && (heart_disease r =? 1) then "Both"
  else if hypertension r =? 1 then "Hypertension Only"
  else if heart_disease r =? 1 then "Heart Disease Only"
  else "None".

Definition labels : list string :=
  ["Both"; "Hypertension Only"; "Heart Disease Only"; "None"].

(* ================================================================== *)
(** ** Heap of frames and the script monad *)

Definition ObjId := nat.
Definition Heap := list DataFrame.
Definition Py (A : Type) : Type := Heap -> PyError + (A * Heap).

Definition ret {A} (a : A) : Py A := fun h => inr (a, h).

Definition bind {A B} (m : Py A) (k : A -> Py B) : Py B :=
  fun h => match m h with
           | inl e => inl e
           | inr (a, h') => k a h'
           end.

Definition lift {A} (x : PyError + A) : Py A :=
  fun h => match x with inl e => inl e | inr a => inr (a, h) end.

Notation "x <- m ;; k" := (bind m (fun x => k))
  (at level 61, m at next level, right associativity).
Notation "m ;;; k" := (bind m (fun _ => k))
  (at level 61, right associativity).

(** A new object: the next free id. *)
Definition new_frame (d : DataFrame) : Py ObjId :=
  fun h => inr (length h, h ++ [d]).

Definition load (o : ObjId) : Py DataFrame :=
  fun h => match nth_error h o with
           | Some d => inr (d, h)
           | None => inl (ReferenceError o)
           end.

Fixpoint update {A} (l : list A) (i : nat) (a : A) : list A :=
  match l, i with
  | [], _ => []
  | _ :: l', O => a :: l'
  | x :: l', S i' => x :: update l' i' a
  end.

Definition store (o : ObjId) (d : DataFrame) : Py unit :=
  fun h => if (o <? length h)%nat then inr (tt, update h o d)
           else inl (ReferenceError o).

(** [pd.read_csv]: the loaded frame has the CSV columns only. *)
Definition read_csv (csv : list Row) : Py ObjId :=
  new_frame (mkFrame csv []).

(** [df[mask]]: boolean indexing builds a NEW frame (a copy). *)
Definition getitem_mask (o : ObjId) (mask : list bool) : Py ObjId :=
  d <- load o ;;
  if (length mask =? length (rows d))%nat then
    new_frame (mkFrame (select_rows (rows d) mask)
                 (map (fun nc => (fst nc, select_rows (snd nc) mask)) (extra d)))
  else lift (inl (ValueError "Item wrong length")).

(** Column assignment: replace the column of that name or append it. *)
Fixpoint set_column (name : string) (vals : list string)
    (cols : list (string * list string)) : list (string * list string) :=
  match cols with
  | [] => [(name, vals)]
  | (n, c) :: cols' =>
      if String.eqb n name then (n, vals) :: cols'
      else (n, c) :: set_column name vals cols'
  end.

(** [df[name] = vals]: mutates the frame object in place. *)
Definition setitem (o : ObjId) (name : string) (vals : list string) : Py unit :=
  d <- load o ;;
  if (length vals =? length (rows d))%nat then
    store o (mkFrame (rows d) (set_column name vals (extra d)))
  else lift (inl (ValueError "Length of values does not match length of index")).

(** [df[name]] for an assigned column. *)
Fixpoint getitem_extra (cols : list (string * list string)) (name : string)
  : PyError + list string :=
  match cols with
  | [] => inl (KeyError name)
  | (n, c) :: cols' =>
      if String.eqb n name then inr c else getitem_extra cols' name
  end.

(* ================================================================== *)
(** ** Group-wise mean *)

Definition Zsum (vs : list Z) : Z := fold_right Z.add 0 vs.

(** [Series.mean()] of an integer Series; NaN on the empty Series. *)
Definition mean (vs : list Z) : option Q :=
  match vs with
  | [] => None
  | _ :: _ => Some (Zsum vs # Pos.of_nat (length vs))
  end.

Section GroupBy.
Variable K : Type.
Variable eqb : K -> K -> bool.
Variable leb : K -> K -> bool.

(** The distinct keys, by first occurrence. *)
Fixpoint unique (keys : list K) : list K :=
  match keys with
  | [] => []
  | k :: ks => k :: filter (fun k' => negb (eqb k' k)) (unique ks)
  end.

Fixpoint insert (k : K) (l : list K) : list K :=
  match l with
  | [] => [k]
  | x :: l' => if leb k x then k :: l else x :: insert k l'
  end.

(** [groupby] sorts the group keys ([sort=True]). *)
Definition sort (l : list K) : list K := fold_right insert [] l.

(** The values of the rows whose key is [k]. *)
Definition group (k : K) (keys : list K) (vals : list Z) : list Z :=
  map snd (filter (fun p => eqb (fst p) k) (combine keys vals)).

(** [df.groupby(keys)[vals].mean().reset_index()]: one line per distinct
    key that occurs, in key order. *)
Definition groupby_mean (keys : list K) (vals : list Z)
  : list (K * option Q) :=
  map (fun k => (k, mean (group k keys vals))) (sort (unique keys)).
End GroupBy.

Definition Table (K : Type) : Type := list (K * option Q).

(** Keys of a two-column [groupby]: compared column by column. *)
Definition pair_eqb (a b : string * string) : bool :=
  String.eqb (fst a) (fst b) && String.eqb (snd a) (snd b).

Definition pair_leb (a b : string * string) : bool :=
  if String.eqb (fst a) (fst b) then String.leb (snd a) (snd b)
  else String.leb (fst a) (fst b).

(** The categorical columns the charts group by. *)
Inductive CatField : Type := Gender | AgeGroup | SmokingHistory | Comorbidity.

Definition key_column (fld : CatField) (d : DataFrame) : PyError + list string :=
  match fld with
  | Gender => inr (col gender d)
  | AgeGroup => inr (col age_group d)
  | SmokingHistory => inr (col smoking_history d)
  | Comorbidity => getitem_extra (extra d) "comorbidity"
  end.

(** [d.groupby(fld)["diabetes"].mean().reset_index()] *)
Definition meanByField (fld : CatField) (d : DataFrame)
  : PyError + Table string :=
  match key_column fld d with
  | inl e => inl e
  | inr keys => inr (groupby_mean String.eqb String.leb keys (col diabetes d))
  end.

(** [d.groupby([fa, fb])["diabetes"].mean().reset_index()] *)
Definition meanByFieldPair (fa fb : CatField) (d : DataFrame)
  : PyError + Table (string * string) :=
  match key_column fa d, key_column fb d with
  | inr ka, inr kb =>
      inr (groupby_mean pair_eqb pair_leb (combine ka kb) (col diabetes d))
  | inl e, _ => inl e
  | _, inl e => inl e
  end.

(** The value a row has in a categorical field; the comorbidity of a row
    is its class. *)
Definition field_value (fld : CatField) (r : Row) : string :=
  match fld with
  | Gender => gender r
  | AgeGroup => age_group r
  | SmokingHistory => smoking_history r
  | Comorbidity => classify r
  end.

(** The rows of a group and the number of diabetic rows among them. *)
Definition members (fld : CatField) (v : string) (rs : list Row) : list Row :=
  filter (fun r => String.eqb (field_value fld r) v) rs.

Definition members2 (fa fb : CatField) (v : string * string) (rs : list Row)
  : list Row :=
  filter (fun r => pair_eqb (field_value fa r, field_value fb r) v) rs.

Definition positives (rs : list Row) : nat :=
  length (filter (fun r => diabetes r =? 1) rs).

(* ================================================================== *)
(** ** Pearson correlation *)

Definition Rsum (l : list R) : R := fold_right Rplus 0%R l.

Definition Rmean (l : list R) : R := (Rsum l / INR (length l))%R.

(** Deviations from the mean. *)
Definition dev (l : list R) : list R := map (fun v => (v - Rmean l)%R) l.

Definition dot (a b : list R) : R :=
  Rsum (map (fun p : R * R => (fst p * snd p)%R) (combine a b)).

(** One entry of [DataFrame.corr()] (method pearson, [min_periods=1]):
    NaN without observations or when the divisor vanishes. *)
Definition pearson (x y : list R) : option R :=
  if (length x <? 1)%nat then None
  else
    let covxy := dot (dev x) (dev y) in
    let divisor := sqrt (dot (dev x) (dev x) * dot (dev y) (dev y)) in
    if Req_dec_T divisor 0%R then None else Some (covxy / divisor)%R.

(** [DataFrame.corr()]: line [i], column [j] is the coefficient of columns
    [i] and [j]. *)
Definition corr (cols : list (list R)) : list (list (option R)) :=
  map (fun x => map (fun y => pearson x y) cols) cols.

(** Line 120. *)
Definition numeric_cols : list (Row -> Q) :=
  [HbA1c_level; blood_glucose_level; bmi; age].

(** Line 121: [d[numeric_cols].corr()]. *)
Definition correlationMatrix (d : DataFrame) : list (list (option R)) :=
  corr (map (fun c => map Q2R (col c d)) numeric_cols).

Definition entry (m : list (list (option R))) (i j : nat) : option (option R) :=
  match nth_error m i with
  | Some line => nth_error line j
  | None => None
  end.

(** A column with two different values. *)
Definition non_constant (c : Row -> Q) (rs : list Row) : Prop :=
  exists r1 r2, In r1 rs /\ In r2 rs /\ ~ (c r1 == c r2)%Q.

(* ================================================================== *)
(** ** The script *)

(** The tables handed to the charts. *)
Record Charts : Type := mkCharts {
  age_group_chart : Table string;
  gender_chart : Table string;
  smoke_chart : Table string;
  comorb_chart : Table string;
  heatmap_data : Table (string * string);
  corr_matrix : list (list (option R));
  heatmap_df : Table (string * string)
}.

(** Lines 81-87: the derived column is computed from the frame behind
    [filtered_df] and assigned to that same object. *)
Definition assign_comorbidity (filtered_df : ObjId) : Py unit :=
  f <- load filtered_df ;;
  lbl <- lift (comorbidity f) ;;
  setitem filtered_df "comorbidity" lbl.

(** app.py from [read_csv] to the last chart; the result carries the ids
    of [df] and [filtered_df]. *)
Definition app (csv : list Row) (sel : FilterSelection)
  : Py (ObjId * ObjId * Charts) :=
  df <- read_csv csv ;;
  d <- load df ;;
  filtered_df <- getitem_mask df (filter_mask d sel) ;;
  f <- load filtered_df ;;
  t1 <- lift (meanByField AgeGroup f) ;;
  t2 <- lift (meanByField Gender f) ;;
  t3 <- lift (meanByField SmokingHistory f) ;;
  assign_comorbidity filtered_df ;;;
  f' <- load filtered_df ;;
  t5 <- lift (meanByField Comorbidity f') ;;
  t8 <- lift (meanByFieldPair Gender AgeGroup f') ;;
  t10 <- lift (meanByFieldPair AgeGroup SmokingHistory f') ;;
  ret (df, filtered_df, mkCharts t1 t2 t3 t5 t8 (correlationMatrix f') t10).

(** The Row Filter on its own: lines 21-27 on a freshly loaded CSV. *)
Definition filtered_rows (csv : list Row) (sel : FilterSelection) : list Row :=
  select_rows csv (filter_mask (mkFrame csv []) sel).

(** The frame [filtered_df] after line 87, for the filtered rows [rs]. *)
Definition labelled (rs : list Row) : DataFrame :=
  match comorbidity (mkFrame rs []) with
  | inr lbl => mkFrame rs (set_column "comorbidity" lbl [])
  | inl _ => mkFrame rs []
  end.

(** The tables of the filtered rows [rs], chart by chart. *)
Definition charts_of (rs : list Row) : Charts :=
  let by1 fld :=
    groupby_mean String.eqb String.leb (map (field_value fld) rs)
      (map diabetes rs) in
  let by2 fa fb :=
    groupby_mean pair_eqb pair_leb
      (map (fun r => (field_value fa r, field_value fb r)) rs)
      (map diabetes rs) in
  mkCharts (by1 AgeGroup) (by1 Gender) (by1 SmokingHistory) (by1 Comorbidity)
    (by2 Gender AgeGroup) (correlationMatrix (mkFrame rs []))
    (by2 AgeGroup SmokingHistory).

(** The 4 x 4 matrix of NaN. *)
Definition nan_matrix : list (list (option R)) := repeat (repeat None 4) 4.

(** Sample rows and selections. *)
Definition patient1 : Row :=
  mkRow "Female" 80 "65+" "never" 0 1 (2519 # 100) (66 # 10) 140 0.
Definition patient2 : Row :=
  mkRow "Male" 54 "50-65" "former" 1 1 (2732 # 100) (57 # 10) 80 1.
Definition patient3 : Row :=
  mkRow "Male" 28 "18-35" "current" 1 0 (2345 # 100) (62 # 10) 158 0.
Definition patient4 : Row :=
  mkRow "Female" 36 "35-50" "never" 0 0 (2110 # 100) (50 # 10) 155 0.

Definition sample : list Row := [patient1; patient2; patient3; patient4].

Definition select_all : FilterSelection :=
  mkSelection ["Female"; "Male"] ["65+"; "50-65"; "18-35"; "35-50"]
    ["never"; "former"; "current"] [0; 1] [0; 1].

Definition select_no_gender : FilterSelection :=
  mkSelection [] ["65+"; "50-65"; "18-35"; "35-50"]
    ["never"; "former"; "current"] [0; 1] [0; 1].

(** Subsequence: some elements dropped, order kept. *)
Inductive subseq {A} : list A -> list A -> Prop :=
| subseq_nil : subseq [] []
| subseq_skip x l1 l2 : subseq l1 l2 -> subseq l1 (x :: l2)
| subseq_keep x l1 l2 : subseq l1 l2 -> subseq (x :: l1) (x :: l2).

(* ================================================================== *)
(** ** Widgets and further notions used by the properties below *)

(** Lines 14-18: every multiselect offers the distinct values of its
    column ([unique()], by first occurrence) and starts with all of them
    selected. *)
Definition default_selection (d : DataFrame) : FilterSelection :=
  mkSelection (unique String.eqb (col gender d))
    (unique String.eqb (col age_group d))
    (unique String.eqb (col smoking_history d))
    (unique Z.eqb (col heart_disease d))
    (unique Z.eqb (col hypertension d)).

(** Field by field, every value selected by [s1] is selected by [s2]. *)
Definition selection_incl (s1 s2 : FilterSelection) : Prop :=
  incl (gender_filter s1) (gender_filter s2) /\
  incl (age_group_filter s1) (age_group_filter s2) /\
  incl (smoking_filter s1) (smoking_filter s2) /\
  incl (heart_disease_filter s1) (heart_disease_filter s2) /\
  incl (hypertension_filter s1) (hypertension_filter s2).

(** The choice of the first condition that holds, else the default. *)
Fixpoint first_match {A} (conds : list bool) (choicelist : list A)
    (default : A) : A :=
  match conds, choicelist with
  | c :: conds', a :: choicelist' =>
      if c then a else first_match conds' choicelist' default
  | _, _ => default
  end.

(** The conditions at position [i], one per entry of the condition list. *)
Definition conds_at (condlist : list (list bool)) (i : nat) : list bool :=
  map (fun c => nth i c false) condlist.

(** A numeric column whose values are all equal. *)
Definition constant (c : Row -> Q) (rs : list Row) : Prop :=
  forall r1 r2, In r1 rs -> In r2 rs -> (c r1 == c r2)%Q.

(** One row more, with all four numeric fields equal to [patient1]'s. *)
Definition patient5 : Row :=
  mkRow "Male" 80 "65+" "former" 1 0 (2519 # 100) (66 # 10) 140 1.

Definition select_male : FilterSelection :=
  mkSelection ["Male"] ["65+"; "50-65"; "18-35"; "35-50"]
    ["never"; "former"; "current"] [0; 1] [0; 1].

(* ================================================================== *)
(** ** The correlation matrix in float64

    [DataFrame.corr()] does not compute over the reals: it converts the
    selected columns to float64 and runs, for every pair of columns, one
    pass of Welford's method in double precision.  This module follows
    that routine operation by operation on the kernel's binary64
    floats. *)

(** The sum of the outcome over some rows, written out on the rows. *)
Fixpoint total_diabetes (rs : list Row) : Z :=
  match rs with
  | [] => 0
  | r :: rs' => diabetes r + total_diabetes rs'
  end.

Module F64.
Import PrimFloat.

Fixpoint pos2f (p : positive) : float :=
  match p with
  | xH => one
  | xO p' => mul two (pos2f p')
  | xI p' => add (mul two (pos2f p')) one
  end.

(** Exact on integers of at most 53 bits. *)
Definition Z2F (z : Z) : float :=
  match z with
  | Z0 => zero
  | Zpos p => pos2f p
  | Zneg p => opp (pos2f p)
  end.

(** The integer nearest to [a / b], ties to even ([a >= 0], [b > 0]). *)
Definition round_half_even (a b : Z) : Z :=
  let q := a / b in
  match 2 * (a mod b) ?= b with
  | Lt => q
  | Gt => q + 1
  | Eq => if Z.even q then q else q + 1
  end.

Definition scaled (n d : positive) (k : Z) : Z * Z :=
  if k <? 0 then (Zpos n * 2 ^ (- k), Zpos d) else (Zpos n, Zpos d * 2 ^ k).

(** The float64 nearest to [n / d]: a 53-bit significand (fewer in the
    subnormal range) rounded to nearest even, then scaled. *)
Definition pos_Q2F (n d : positive) : float :=
  let k0 := Z.log2 (Zpos n) - Z.log2 (Zpos d) - 52 in
  let k1 := if fst (scaled n d k0) / snd (scaled n d k0) <? 2 ^ 52
            then k0 - 1 else k0 in
  let k := Z.max k1 (-1074) in
  FloatOps.Z.ldexp
    (Z2F (round_half_even (fst (scaled n d k)) (snd (scaled n d k)))) k.

(** The float64 a decimal of the CSV is read as: the nearest one. *)
Definition Q2F (q : Q) : float :=
  match Qnum q with
  | Z0 => zero
  | Zpos n => pos_Q2F n (Qden q)
  | Zneg n => opp (pos_Q2F n (Qden q))
  end.

(** The accumulators of one pass over a pair of columns. *)
Record welford : Type := mkWelford {
  nobs : Z;
  meanx : float;
  meany : float;
  ssqdm_x : float;
  ssqdm_y : float;
  covxy : float
}.

Definition welford0 : welford := mkWelford 0 zero zero zero zero zero.

(** One row of the inner loop; rows with a non-finite value are skipped
    (the [isfinite] mask). *)
Definition step (w : welford) (v : float * float) : welford :=
  let (vx, vy) := v in
  if is_finite vx && is_finite vy then
    let n := nobs w + 1 in
    let dx := sub vx (meanx w) in
    let dy := sub vy (meany w) in
    let mx := add (meanx w) (mul (div one (Q2F (inject_Z n))) dx) in
    let my := add (meany w) (mul (div one (Q2F (inject_Z n))) dy) in
    mkWelford n mx my
      (add (ssqdm_x w) (mul (sub vx mx) dx))
      (add (ssqdm_y w) (mul (sub vy my) dy))
      (add (covxy w) (mul (sub vx mx) dy))
  else w.

(** The coefficient is clipped to [-1, 1]; NaN passes through. *)
Definition clip (val : float) : float :=
  if ltb one val then one
  else if ltb val (opp one) then opp one else val.

(** After the loop: NaN below [min_periods = 1] observations or when the
    divisor compares equal to 0. *)
Definition finish (w : welford) : float :=
  if nobs w <? 1 then nan
  else
    let divisor := sqrt (mul (ssqdm_x w) (ssqdm_y w)) in
    if negb (eqb divisor zero) then clip (div (covxy w) divisor) else nan.

Definition nancorr_entry (x y : list float) : float :=
  finish (fold_left step (combine x y) welford0).

Definition indexed {A} (l : list A) : list (nat * A) :=
  combine (seq 0 (length l)) l.

(** The matrix: the routine computes the entries with [yi <= xi] and
    stores each of them at [(xi, yi)] and at [(yi, xi)]. *)
Definition nancorr (cols : list (list float)) : list (list float) :=
  map (fun ix : nat * list float =>
         map (fun iy : nat * list float =>
                if (fst iy <=? fst ix)%nat
                then nancorr_entry (snd ix) (snd iy)
                else nancorr_entry (snd iy) (snd ix))
             (indexed cols))
      (indexed cols).

Definition entry (m : list (list float)) (i j : nat) : option float :=
  match nth_error m i with
  | Some line => nth_error line j
  | None => None
  end.


(** The sample's coefficient of HbA1c_level and blood_glucose_level. *)
Definition sample_r01 : float := 0x1.5f1627f8ed00cp-5%float.
End F64.

(** Line 121 in float64; [parse] is the reading of a CSV decimal as a
    float64. *)
Definition correlationMatrix_f64 (parse : Q -> PrimFloat.float)
    (d : DataFrame) : list (list PrimFloat.float) :=
  F64.nancorr (map (fun c => map parse (col c d)) numeric_cols).


(* ================================================================== *)
(** * Properties *)

(** ** Series and masks *)

Lemma series_and_map {A} (f g : A -> bool) (l : list A) :
  map f l &&& map g l = map (fun x => f x && g x) l.
Proof.
  unfold series_and.
  induction l as [|x l IH]; simpl; [reflexivity|].
  now rewrite IH.
Qed.

Lemma isin_col {A} (eqb : A -> A -> bool) (f : Row -> A) d vs :
  isin eqb (col f d) vs = map (fun r => existsb (eqb (f r)) vs) (rows d).
Proof. unfold isin, col. apply map_map. Qed.

Lemma filter_mask_map d sel :
  filter_mask d sel = map (selectedb sel) (rows d).
Proof.
  unfold filter_mask.
  rewrite !isin_col, !series_and_map.
  reflexivity.
Qed.

Lemma select_rows_map {A} (p : A -> bool) (l : list A) :
  select_rows l (map p l) = filter p l.
Proof.
  induction l as [|x l IH]; simpl; [reflexivity|].
  rewrite IH. reflexivity.
Qed.

Lemma filtered_rows_filter csv sel :
  filtered_rows csv sel = filter (selectedb sel) csv.
Proof.
  unfold filtered_rows.
  rewrite filter_mask_map. simpl.
  apply select_rows_map.
Qed.

Lemma existsb_string_In (v : string) (vs : list string) :
  existsb (String.eqb v) vs = true <-> In v vs.
Proof.
  rewrite existsb_exists. split.
  - intros (x & Hin & He). apply String.eqb_eq in He. now subst.
  - intros Hin. exists v. split; [assumption|apply String.eqb_refl].
Qed.

Lemma existsb_Z_In (v : Z) (vs : list Z) :
  existsb (Z.eqb v) vs = true <-> In v vs.
Proof.
  rewrite existsb_exists. split.
  - intros (x & Hin & He). apply Z.eqb_eq in He. now subst.
  - intros Hin. exists v. split; [assumption|apply Z.eqb_refl].
Qed.

Lemma selectedb_spec sel r : selectedb sel r = true <-> selected sel r.
Proof.
  unfold selectedb, selected.
  rewrite !andb_true_iff, !existsb_string_In, !existsb_Z_In.
  tauto.
Qed.

Lemma filter_subseq {A} (p : A -> bool) (l : list A) : subseq (filter p l) l.
Proof.
  induction l as [|x l IH]; simpl.
  - constructor.
  - destruct (p x); now constructor.
Qed.

(** C1: the Row Filter returns exactly the rows of the dataset whose five
    filtered fields each lie in the field's selection: every returned row
    is a row of the dataset and has the five memberships (soundness), every
    row of the dataset with the five memberships is returned
    (completeness), and the result is the dataset with the other rows
    removed. *)
Theorem row_filter_exact (csv : list Row) (sel : FilterSelection) :
  Forall (fun r => In r csv /\ selected sel r) (filtered_rows csv sel) /\
  Forall (fun r => selected sel r -> In r (filtered_rows csv sel)) csv /\
  filtered_rows csv sel = filter (selectedb sel) csv.
Proof.
  rewrite filtered_rows_filter.
  split; [|split]; [| |reflexivity].
  - apply Forall_forall. intros r Hr.
    apply filter_In in Hr. destruct Hr as [Hin Hs].
    split; [assumption|now apply selectedb_spec].
  - apply Forall_forall. intros r Hin Hs.
    apply filter_In. split; [assumption|now apply selectedb_spec].
Qed.

Lemma no_selection_no_row (csv : list Row) (sel : FilterSelection) :
  gender_filter sel = [] \/ age_group_filter sel = [] \/
  smoking_filter sel = [] \/ heart_disease_filter sel = [] \/
  hypertension_filter sel = [] ->
  filter (selectedb sel) csv = [].
Proof.
  intros H.
  assert (Hnone : forall r, selectedb sel r = false).
  { intros r. destruct (selectedb sel r) eqn:E; [|reflexivity].
    apply selectedb_spec in E. unfold selected in E.
    destruct E as (H1 & H2 & H3 & H4 & H5).
    destruct H as [H|[H|[H|[H|H]]]]; rewrite H in *; contradiction. }
  induction csv as [|r csv IH]; simpl; [reflexivity|].
  now rewrite Hnone.
Qed.

(** C9: the Row Filter keeps the order of the dataset: its result is a
    subsequence of the dataset. *)
Theorem row_filter_subseq (csv : list Row) (sel : FilterSelection) :
  subseq (filtered_rows csv sel) csv.
Proof.
  rewrite filtered_rows_filter. apply filter_subseq.
Qed.

(* ------------------------------------------------------------------ *)
(** ** Comorbidity classifier *)

Lemma series_eq_col (f : Row -> Z) d k :
  series_eq (col f d) k = map (fun r => f r =? k) (rows d).
Proof. unfold series_eq, col. apply map_map. Qed.

Lemma copyto_map {A B} (g : B -> A) (f : B -> bool) (c : A) (l : list B) :
  copyto (map g l) c (map f l) = map (fun r => if f r then c else g r) l.
Proof.
  unfold copyto.
  induction l as [|x l IH]; simpl; [reflexivity|].
  now rewrite IH.
Qed.

Lemma repeat_map {A B} (a : A) (l : list B) :
  repeat a (length l) = map (fun _ => a) l.
Proof. induction l as [|x l IH]; simpl; [reflexivity|now rewrite IH]. Qed.

Lemma conditions_map d :
  conditions d =
  [ map (fun r => (hypertension r =? 1) && (heart_disease r =? 1)) (rows d);
    map (fun r => hypertension r =? 1) (rows d);
    map (fun r => heart_disease r =? 1) (rows d) ].
Proof.
  unfold conditions. now rewrite !series_eq_col, series_and_map.
Qed.

(** The code's [np.select] computes the ordered classifier on every row. *)
Lemma comorbidity_classify d : comorbidity d = inr (map classify (rows d)).
Proof.
  unfold comorbidity. rewrite conditions_map.
  unfold np_select, choices. simpl.
  rewrite !length_map, Nat.eqb_refl. simpl.
  rewrite repeat_map, !copyto_map.
  apply f_equal. apply map_ext. intros r. unfold classify.
  destruct (hypertension r =? 1), (heart_disease r =? 1); reflexivity.
Qed.

Lemma classify_in_labels r : In (classify r) labels.
Proof.
  unfold classify, labels.
  destruct (hypertension r =? 1), (heart_disease r =? 1); simpl; tauto.
Qed.

Lemma labels_NoDup : NoDup labels.
Proof.
  unfold labels.
  repeat constructor; simpl; intros H;
    repeat (destruct H as [H|H]; [discriminate H|]); exact H.
Qed.

(** C2: the classifier is total and its classes exclude each other: the
    code labels every row, the label of a row is one of the four pairwise
    different labels, it is the one chosen by the ordered predicates
    (both = 1; hypertension = 1; heart_disease = 1; otherwise None), and a
    row with both conditions equal to 1 is labelled Both. *)
Theorem comorbidity_total_exclusive (d : DataFrame) :
  exists lbl,
    comorbidity d = inr lbl /\
    length lbl = length (rows d) /\
    NoDup labels /\
    Forall (fun rl : Row * string =>
              let (r, l) := rl in
              In l labels /\
              l = classify r /\
              (hypertension r = 1 /\ heart_disease r = 1 ->
               l = "Both" /\ l <> "Hypertension Only" /\
               l <> "Heart Disease Only") /\
              (l = "Both" <-> hypertension r = 1 /\ heart_disease r = 1) /\
              (l = "Hypertension Only" <->
                 hypertension r = 1 /\ heart_disease r <> 1) /\
              (l = "Heart Disease Only" <->
                 hypertension r <> 1 /\ heart_disease r = 1) /\
              (l = "None" <-> hypertension r <> 1 /\ heart_disease r <> 1))
           (combine (rows d) lbl).
Proof.
  exists (map classify (rows d)).
  split; [apply comorbidity_classify|].
  split; [apply length_map|].
  split; [apply labels_NoDup|].
  apply Forall_forall. intros [r l] Hin.
  assert (Hl : l = classify r).
  { clear -Hin. induction (rows d) as [|x xs IH]; simpl in Hin; [contradiction|].
    destruct Hin as [Heq|Hin]; [now inversion Heq|now apply IH]. }
  subst l. split; [apply classify_in_labels|]. split; [reflexivity|].
  unfold classify.
  destruct (Z.eqb_spec (hypertension r) 1) as [Hh|Hh],
           (Z.eqb_spec (heart_disease r) 1) as [Hd|Hd]; simpl;
    repeat split; intros; try discriminate; try tauto; try easy.
Qed.

(** C8: on three rows with (hypertension, heart_disease) = (1,1), (1,0),
    (0,0), in that order, the code yields the labels Both, Hypertension
    Only, None, in that order. *)
Theorem comorbidity_scenario (r1 r2 r3 : Row) (cols : list (string * list string)) :
  hypertension r1 = 1 -> heart_disease r1 = 1 ->
  hypertension r2 = 1 -> heart_disease r2 = 0 ->
  hypertension r3 = 0 -> heart_disease r3 = 0 ->
  comorbidity (mkFrame [r1; r2; r3] cols) =
  inr ["Both"; "Hypertension Only"; "None"].
Proof.
  intros H1 D1 H2 D2 H3 D3.
  rewrite comorbidity_classify. simpl. unfold classify.
  rewrite H1, D1, H2, D2, H3, D3. reflexivity.
Qed.

Lemma labelled_eq rs :
  labelled rs = mkFrame rs [("comorbidity", map classify rs)].
Proof. unfold labelled. now rewrite comorbidity_classify. Qed.

(* ------------------------------------------------------------------ *)
(** ** Group-wise mean *)

Section GroupByFacts.
Variable K : Type.
Variable eqb : K -> K -> bool.
Variable leb : K -> K -> bool.
Hypothesis eqb_spec : forall a b, eqb a b = true <-> a = b.

Lemma unique_In (keys : list K) k : In k (unique eqb keys) <-> In k keys.
Proof.
  induction keys as [|x keys IH]; simpl; [tauto|].
  rewrite filter_In, IH, negb_true_iff.
  split.
  - intros [H|[H _]]; auto.
  - intros [H|H]; [now left|].
    destruct (eqb k x) eqn:E.
    + left. symmetry. now apply eqb_spec.
    + right. now split.
Qed.

Lemma unique_NoDup (keys : list K) : NoDup (unique eqb keys).
Proof.
  induction keys as [|x keys IH]; simpl; constructor.
  - rewrite filter_In, negb_true_iff. intros [_ H].
    assert (E : eqb x x = true) by now apply eqb_spec.
    congruence.
  - now apply NoDup_filter.
Qed.

Lemma insert_perm k (l : list K) : Permutation (insert leb k l) (k :: l).
Proof.
  induction l as [|x l IH]; simpl; [reflexivity|].
  destruct (leb k x); [reflexivity|].
  rewrite IH. apply perm_swap.
Qed.

Lemma sort_perm (l : list K) : Permutation (sort leb l) l.
Proof.
  induction l as [|x l IH]; simpl; [reflexivity|].
  rewrite insert_perm. now constructor.
Qed.

Lemma groupby_mean_keys keys vals :
  map fst (groupby_mean eqb leb keys vals) = sort leb (unique eqb keys).
Proof. unfold groupby_mean. rewrite map_map. simpl. apply map_id. Qed.

Lemma groupby_mean_NoDup keys vals :
  NoDup (map fst (groupby_mean eqb leb keys vals)).
Proof.
  rewrite groupby_mean_keys.
  eapply Permutation_NoDup; [symmetry; apply sort_perm|apply unique_NoDup].
Qed.

Lemma groupby_mean_In keys vals k :
  In k (map fst (groupby_mean eqb leb keys vals)) <-> In k keys.
Proof.
  rewrite groupby_mean_keys.
  transitivity (In k (unique eqb keys)); [|apply unique_In].
  split; apply Permutation_in;
    [apply sort_perm|symmetry; apply sort_perm].
Qed.

Lemma groupby_mean_value keys vals k q :
  In (k, q) (groupby_mean eqb leb keys vals) ->
  q = mean (group eqb k keys vals).
Proof.
  unfold groupby_mean. rewrite in_map_iff.
  intros (k' & E & _). now inversion E.
Qed.

(** The group of a key, when both columns come from the same rows. *)
Lemma group_rows {A} (key : A -> K) (val : A -> Z) (l : list A) k :
  group eqb k (map key l) (map val l) =
  map val (filter (fun r => eqb (key r) k) l).
Proof.
  unfold group.
  induction l as [|x l IH]; simpl; [reflexivity|].
  destruct (eqb (key x) k); simpl; now rewrite IH.
Qed.

(** The keys come out in order when [leb] is total. *)
Lemma insert_sorted k (l : list K) :
  (forall a b, leb a b = true \/ leb b a = true) ->
  Sorted (fun a b => leb a b = true) l ->
  Sorted (fun a b => leb a b = true) (insert leb k l).
Proof.
  intros Htot Hs.
  induction l as [|x l IH]; simpl; [repeat constructor|].
  destruct (leb k x) eqn:E.
  - constructor; [assumption|now constructor].
  - apply Sorted_inv in Hs. destruct Hs as [Hs Hhd].
    constructor; [now apply IH|].
    destruct l as [|y l]; simpl.
    + constructor. destruct (Htot k x); congruence.
    + destruct (leb k y); constructor.
      * destruct (Htot k x); congruence.
      * now inversion Hhd.
Qed.

Lemma sort_sorted (l : list K) :
  (forall a b, leb a b = true \/ leb b a = true) ->
  Sorted (fun a b => leb a b = true) (sort leb l).
Proof.
  intros Htot. induction l as [|x l IH]; simpl; [constructor|].
  now apply insert_sorted.
Qed.
End GroupByFacts.

Lemma string_eqb_spec (a b : string) : String.eqb a b = true <-> a = b.
Proof. apply String.eqb_eq. Qed.

Lemma pair_eqb_spec (a b : string * string) : pair_eqb a b = true <-> a = b.
Proof.
  destruct a as [a1 a2], b as [b1 b2]. unfold pair_eqb. simpl.
  rewrite andb_true_iff, !String.eqb_eq.
  split; [intros [-> ->]; reflexivity|intros E; now inversion E].
Qed.

Lemma pair_leb_total (a b : string * string) :
  pair_leb a b = true \/ pair_leb b a = true.
Proof.
  destruct a as [a1 a2], b as [b1 b2]. unfold pair_leb. simpl.
  rewrite (String.eqb_sym b1 a1).
  destruct (String.eqb a1 b1); apply String.leb_total.
Qed.

Lemma key_column_labelled fld rs :
  key_column fld (labelled rs) = inr (map (field_value fld) rs).
Proof. rewrite labelled_eq. destruct fld; reflexivity. Qed.

Lemma combine_map {A B C} (f : A -> B) (g : A -> C) (l : list A) :
  combine (map f l) (map g l) = map (fun x => (f x, g x)) l.
Proof. induction l as [|x l IH]; simpl; [reflexivity|now rewrite IH]. Qed.

Lemma meanByField_labelled fld rs :
  meanByField fld (labelled rs) =
  inr (groupby_mean String.eqb String.leb (map (field_value fld) rs)
         (map diabetes rs)).
Proof.
  unfold meanByField. rewrite key_column_labelled.
  rewrite labelled_eq. reflexivity.
Qed.

Lemma meanByFieldPair_labelled fa fb rs :
  meanByFieldPair fa fb (labelled rs) =
  inr (groupby_mean pair_eqb pair_leb
         (map (fun r => (field_value fa r, field_value fb r)) rs)
         (map diabetes rs)).
Proof.
  unfold meanByFieldPair. rewrite !key_column_labelled, combine_map.
  rewrite labelled_eq. reflexivity.
Qed.

Lemma positives_le rs : (positives rs <= length rs)%nat.
Proof. unfold positives. apply filter_length_le. Qed.

(** On a 0/1 column the sum counts the ones. *)
Lemma Zsum_positives rs :
  Forall (fun r => diabetes r = 0 \/ diabetes r = 1) rs ->
  Zsum (map diabetes rs) = Z.of_nat (positives rs).
Proof.
  unfold positives.
  induction 1 as [|r rs Hr _ IH]; [reflexivity|].
  cbn [map filter Zsum fold_right]. fold (Zsum (map diabetes rs)).
  rewrite IH.
  destruct Hr as [E|E]; rewrite E; cbn [Z.eqb Pos.eqb length]; lia.
Qed.

Lemma mean_nonempty (vs : list Z) :
  vs <> [] -> mean vs = Some (Zsum vs # Pos.of_nat (length vs)).
Proof. destruct vs; [congruence|reflexivity]. Qed.

Lemma Zpos_of_nat (n : nat) :
  n <> 0%nat -> Z.pos (Pos.of_nat n) = Z.of_nat n.
Proof.
  destruct n as [|n]; [congruence|]. intros _.
  rewrite <- Pos.of_nat_succ, Zpos_P_of_succ_nat. lia.
Qed.

Lemma Qmake_of_nat (a : Z) (n : nat) :
  n <> 0%nat ->
  (a # Pos.of_nat n == inject_Z a / inject_Z (Z.of_nat n))%Q.
Proof.
  intros Hn. rewrite Qmake_Qdiv, Zpos_of_nat by assumption.
  reflexivity.
Qed.

Lemma members_In fld v rs r :
  In r (members fld v rs) <-> In r rs /\ field_value fld r = v.
Proof. unfold members. now rewrite filter_In, String.eqb_eq. Qed.

Lemma members2_In fa fb v rs r :
  In r (members2 fa fb v rs) <->
  In r rs /\ (field_value fa r, field_value fb r) = v.
Proof. unfold members2. now rewrite filter_In, pair_eqb_spec. Qed.

Lemma nonempty_In {A} (l : list A) : l <> [] <-> exists x, In x l.
Proof.
  destruct l as [|x l]; split.
  - congruence.
  - intros [x []].
  - intros _. exists x. now left.
  - intros _. discriminate.
Qed.

Lemma length_nonempty {A} (l : list A) : l <> [] -> length l <> 0%nat.
Proof. destruct l; [congruence|discriminate]. Qed.

(** C3: on the filtered rows [rs] (with the 0/1 outcome of the data
    model) and for each categorical field, the table of meanByField has
    every field value that occurs in some row exactly once and no other
    value; the value of a line is the number of rows of its group with
    diabetes = 1 divided by the size of the group, it is not NaN and lies
    in [0, 1]. *)
Theorem meanByField_table (rs : list Row) (fld : CatField) :
  Forall (fun r => diabetes r = 0 \/ diabetes r = 1) rs ->
  exists t,
    meanByField fld (labelled rs) = inr t /\
    NoDup (map fst t) /\
    (forall v, In v (map fst t) <-> members fld v rs <> []) /\
    Forall (fun kv : string * option Q =>
              let g := members fld (fst kv) rs in
              exists q, snd kv = Some q /\
                (q == inject_Z (Z.of_nat (positives g)) /
                      inject_Z (Z.of_nat (length g)))%Q /\
                (0 <= q <= 1)%Q) t.
Proof.
  intros Hbin.
  eexists. split; [apply meanByField_labelled|].
  split; [apply groupby_mean_NoDup, string_eqb_spec|].
  assert (Hkeys : forall v,
    In v (map fst (groupby_mean String.eqb String.leb
                     (map (field_value fld) rs) (map diabetes rs))) <->
    members fld v rs <> []).
  { intros v.
    rewrite (@groupby_mean_In _ _ String.leb string_eqb_spec), in_map_iff, nonempty_In.
    split.
    - intros (r & E & Hin). exists r. now apply members_In.
    - intros (r & Hr). apply members_In in Hr. exists r. tauto. }
  split; [exact Hkeys|].
  apply Forall_forall. intros [v q] Hin. cbn [fst snd].
  assert (Hne : members fld v rs <> []).
  { apply Hkeys. apply in_map_iff. now exists (v, q). }
  apply groupby_mean_value in Hin.
  rewrite group_rows in Hin. fold (members fld v rs) in Hin.
  rewrite mean_nonempty in Hin
    by (intros E; apply map_eq_nil in E; contradiction).
  rewrite length_map, Zsum_positives in Hin.
  2:{ apply Forall_forall. intros r Hr. apply members_In in Hr.
      rewrite Forall_forall in Hbin. now apply Hbin. }
  pose proof (positives_le (members fld v rs)) as Hle.
  pose proof (length_nonempty Hne) as Hlen.
  exists (Z.of_nat (positives (members fld v rs))
          # Pos.of_nat (length (members fld v rs))).
  split; [exact Hin|].
  split; [now apply Qmake_of_nat|].
  unfold Qle. cbn [Qnum Qden]. rewrite Zpos_of_nat by assumption.
  lia.
Qed.

Lemma Zsum_total_diabetes (rs : list Row) :
  Zsum (map diabetes rs) = total_diabetes rs.
Proof.
  induction rs as [|r rs IH]; [reflexivity|].
  cbn [map total_diabetes]. rewrite <- IH. reflexivity.
Qed.

Lemma total_diabetes_positives (rs : list Row) :
  Forall (fun r => diabetes r = 0 \/ diabetes r = 1) rs ->
  total_diabetes rs = Z.of_nat (positives rs).
Proof.
  intros H. rewrite <- Zsum_total_diabetes. now apply Zsum_positives.
Qed.

(** C7: on the filtered rows [rs] and for each pair of categorical fields,
    the table of meanByFieldPair has one line for every combination of
    values that occurs in some row and no other line; the value of a line
    is a number (not NaN), the sum of diabetes over the rows of its
    combination divided by their number; on a 0/1 outcome this is the
    share of rows with diabetes = 1, between 0 and 1. *)
Theorem meanByFieldPair_table (rs : list Row) (fa fb : CatField) :
  exists t,
    meanByFieldPair fa fb (labelled rs) = inr t /\
    NoDup (map fst t) /\
    (forall v, In v (map fst t) <-> members2 fa fb v rs <> []) /\
    Forall (fun kv : string * string * option Q =>
              let g := members2 fa fb (fst kv) rs in
              exists q, snd kv = Some q /\
                (q == inject_Z (total_diabetes g) /
                      inject_Z (Z.of_nat (length g)))%Q /\
                (Forall (fun r => diabetes r = 0 \/ diabetes r = 1) g ->
                 (q == inject_Z (Z.of_nat (positives g)) /
                       inject_Z (Z.of_nat (length g)))%Q /\
                 (0 <= q <= 1)%Q))
           t.
Proof.
  eexists. split; [apply meanByFieldPair_labelled|].
  split; [apply groupby_mean_NoDup, pair_eqb_spec|].
  set (key := fun r => (field_value fa r, field_value fb r)).
  assert (Hkeys : forall v,
    In v (map fst (groupby_mean pair_eqb pair_leb
                     (map key rs) (map diabetes rs))) <->
    members2 fa fb v rs <> []).
  { intros v.
    rewrite (@groupby_mean_In _ _ pair_leb pair_eqb_spec), in_map_iff, nonempty_In.
    split.
    - intros (r & E & Hin). exists r. now apply members2_In.
    - intros (r & Hr). apply members2_In in Hr. exists r. tauto. }
  split; [exact Hkeys|].
  apply Forall_forall. intros [v q] Hin. cbn [fst snd].
  assert (Hne : members2 fa fb v rs <> []).
  { apply Hkeys. apply in_map_iff. now exists (v, q). }
  apply groupby_mean_value in Hin.
  rewrite group_rows in Hin.
  change (filter (fun r : Row => pair_eqb (key r) v) rs)
    with (members2 fa fb v rs) in Hin.
  rewrite mean_nonempty in Hin
    by (intros E; apply map_eq_nil in E; contradiction).
  rewrite length_map, Zsum_total_diabetes in Hin.
  pose proof (length_nonempty Hne) as Hlen.
  eexists. split; [exact Hin|].
  split; [now apply Qmake_of_nat|].
  intros Hbin. rewrite (total_diabetes_positives Hbin).
  split; [now apply Qmake_of_nat|].
  pose proof (positives_le (members2 fa fb v rs)) as Hle.
  unfold Qle. cbn [Qnum Qden]. rewrite Zpos_of_nat by assumption.
  lia.
Qed.

(* ------------------------------------------------------------------ *)
(** ** Running the script on the heap *)

Lemma bind_inr {A B} (m : Py A) (k : A -> Py B) h a h' :
  m h = inr (a, h') -> bind m k h = k a h'.
Proof. unfold bind. now intros ->. Qed.

Lemma load_run h o d : nth_error h o = Some d -> load o h = inr (d, h).
Proof. unfold load. now intros ->. Qed.

Lemma nth_error_new (h : Heap) d : nth_error (h ++ [d]) (length h) = Some d.
Proof. rewrite nth_error_app2, Nat.sub_diag; [reflexivity|lia]. Qed.

Lemma update_length {A} (l : list A) i a : length (update l i a) = length l.
Proof.
  revert i. induction l as [|x l IH]; intros [|i]; simpl; auto.
Qed.

Lemma update_same {A} (l : list A) i a :
  (i < length l)%nat -> nth_error (update l i a) i = Some a.
Proof.
  revert i. induction l as [|x l IH]; intros [|i]; simpl; intros H;
    try lia; [reflexivity|apply IH; lia].
Qed.

Lemma update_other {A} (l : list A) i j a :
  i <> j -> nth_error (update l i a) j = nth_error l j.
Proof.
  revert i j. induction l as [|x l IH]; intros [|i] [|j] H; simpl;
    try reflexivity; try congruence.
  apply IH. congruence.
Qed.

Lemma update_last {A} (l : list A) (x a : A) :
  update (l ++ [x]) (length l) a = l ++ [a].
Proof. induction l as [|y l IH]; simpl; [reflexivity|now rewrite IH]. Qed.

Lemma getitem_mask_run h o d mask :
  nth_error h o = Some d ->
  length mask = length (rows d) ->
  getitem_mask o mask h =
  inr (length h,
       h ++ [mkFrame (select_rows (rows d) mask)
               (map (fun nc => (fst nc, select_rows (snd nc) mask)) (extra d))]).
Proof.
  intros Ho Hlen. unfold getitem_mask.
  erewrite bind_inr by (apply load_run; exact Ho).
  rewrite Hlen, Nat.eqb_refl. reflexivity.
Qed.

Lemma setitem_run h o d name vals :
  nth_error h o = Some d ->
  length vals = length (rows d) ->
  setitem o name vals h =
  inr (tt, update h o (mkFrame (rows d) (set_column name vals (extra d)))).
Proof.
  intros Ho Hlen. unfold setitem.
  erewrite bind_inr by (apply load_run; exact Ho).
  rewrite Hlen, Nat.eqb_refl. unfold store.
  assert (Hlt : (o < length h)%nat)
    by (apply nth_error_Some; congruence).
  apply Nat.ltb_lt in Hlt. now rewrite Hlt.
Qed.

Lemma set_column_fresh name vals cols :
  ~ In name (map fst cols) ->
  set_column name vals cols = cols ++ [(name, vals)].
Proof.
  induction cols as [|[n c] cols IH]; simpl; intros H; [reflexivity|].
  destruct (String.eqb_spec n name) as [E|E]; [tauto|].
  rewrite IH; tauto.
Qed.

Lemma assign_comorbidity_run h o f :
  nth_error h o = Some f ->
  assign_comorbidity o h =
  inr (tt, update h o (mkFrame (rows f)
             (set_column "comorbidity" (map classify (rows f)) (extra f)))).
Proof.
  intros Ho. unfold assign_comorbidity.
  erewrite bind_inr by (apply load_run; exact Ho).
  rewrite comorbidity_classify. unfold lift, bind.
  apply setitem_run; [assumption|apply length_map].
Qed.

Lemma meanByField_csv fld rs cols :
  fld <> Comorbidity ->
  meanByField fld (mkFrame rs cols) =
  inr (groupby_mean String.eqb String.leb (map (field_value fld) rs)
         (map diabetes rs)).
Proof. destruct fld; intros H; try reflexivity. congruence. Qed.

(** The whole script, from any heap: two objects are created, [df] holds
    the CSV as loaded and [filtered_df] the filtered rows with the derived
    column; the charts get the tables of the filtered rows. *)
Lemma app_run csv sel h :
  app csv sel h =
  inr ((length h, S (length h), charts_of (filtered_rows csv sel)),
       h ++ [mkFrame csv []; labelled (filtered_rows csv sel)]).
Proof.
  unfold app, read_csv.
  erewrite bind_inr by reflexivity.
  erewrite bind_inr by (apply load_run, nth_error_new).
  erewrite bind_inr.
  2:{ apply getitem_mask_run with (d := mkFrame csv []);
        [apply nth_error_new|].
      rewrite filter_mask_map. apply length_map. }
  cbn [rows extra map]. fold (filtered_rows csv sel).
  set (rs := filtered_rows csv sel).
  set (h1 := h ++ [mkFrame csv []]).
  assert (Hlen : length h1 = S (length h))
    by (unfold h1; rewrite length_app; simpl; lia).
  erewrite bind_inr by (apply load_run, nth_error_new).
  rewrite !meanByField_csv by discriminate.
  unfold lift at 1 2 3. unfold bind at 1 2 3.
  erewrite bind_inr by (apply assign_comorbidity_run, nth_error_new).
  rewrite update_last. cbn [rows extra set_column].
  rewrite <- labelled_eq.
  erewrite bind_inr by (apply load_run, nth_error_new).
  rewrite meanByField_labelled, !meanByFieldPair_labelled.
  unfold lift, bind, ret.
  rewrite Hlen. unfold h1. rewrite <- app_assoc. simpl.
  unfold charts_of, correlationMatrix, col. rewrite labelled_eq. reflexivity.
Qed.

(** C4: when one of the five selections is empty the Row Filter returns
    the empty record set, and this is a result and no error: the script
    built on it runs to its end from any heap. *)
Theorem row_filter_empty_selection (csv : list Row) (sel : FilterSelection)
    (h : Heap) :
  gender_filter sel = [] \/ age_group_filter sel = [] \/
  smoking_filter sel = [] \/ heart_disease_filter sel = [] \/
  hypertension_filter sel = [] ->
  filtered_rows csv sel = [] /\
  exists out h', app csv sel h = inr (out, h').
Proof.
  intros H. split.
  - rewrite filtered_rows_filter. now apply no_selection_no_row.
  - rewrite app_run. eauto.
Qed.

(** The lines of a chart table come in key order. *)
Lemma meanByField_sorted fld rs t :
  meanByField fld (labelled rs) = inr t ->
  Sorted (fun a b => String.leb a b = true) (map fst t).
Proof.
  rewrite meanByField_labelled. intros E. inversion E; subst t.
  rewrite groupby_mean_keys. apply sort_sorted. apply String.leb_total.
Qed.

Lemma meanByFieldPair_sorted fa fb rs t :
  meanByFieldPair fa fb (labelled rs) = inr t ->
  Sorted (fun a b => pair_leb a b = true) (map fst t).
Proof.
  rewrite meanByFieldPair_labelled. intros E. inversion E; subst t.
  rewrite groupby_mean_keys. apply sort_sorted. apply pair_leb_total.
Qed.

(* ------------------------------------------------------------------ *)
(** ** Pearson correlation *)

Section PearsonFacts.
Local Open Scope R_scope.

Lemma dot_comm (a b : list R) : dot a b = dot b a.
Proof.
  unfold dot. revert b.
  induction a as [|x a IH]; intros [|y b]; simpl; try reflexivity.
  rewrite IH. lra.
Qed.

Lemma dot_self_nonneg (a : list R) : 0 <= dot a a.
Proof.
  unfold dot. induction a as [|x a IH]; simpl; [lra|].
  pose proof (Rle_0_sqr x) as H. unfold Rsqr in H. lra.
Qed.

Lemma dot_self_pos (a : list R) :
  (exists v, In v a /\ v <> 0) -> 0 < dot a a.
Proof.
  intros (v & Hin & Hv).
  induction a as [|x a IH]; [contradiction|].
  change (dot (x :: a) (x :: a)) with (x * x + dot a a).
  pose proof (dot_self_nonneg a) as Ha.
  pose proof (Rle_0_sqr x) as Hx. unfold Rsqr in Hx.
  destruct Hin as [->|Hin].
  - assert (0 < v * v) by (apply Rsqr_pos_lt in Hv; exact Hv). lra.
  - specialize (IH Hin). lra.
Qed.

(** A column with two different values has positive squared deviation. *)
Lemma dev_self_pos (x : list R) :
  (exists a b, In a x /\ In b x /\ a <> b) -> 0 < dot (dev x) (dev x).
Proof.
  intros (a & b & Ha & Hb & Hab).
  apply dot_self_pos.
  destruct (Req_dec_T a (Rmean x)) as [E|E].
  - exists (b - Rmean x). split; [|lra].
    unfold dev. apply in_map_iff. now exists b.
  - exists (a - Rmean x). split; [|lra].
    unfold dev. apply in_map_iff. now exists a.
Qed.

Lemma pearson_sym (x y : list R) :
  length x = length y -> pearson x y = pearson y x.
Proof.
  intros Hlen. unfold pearson. rewrite Hlen.
  rewrite (dot_comm (dev x) (dev y)).
  rewrite (Rmult_comm (dot (dev x) (dev x))).
  reflexivity.
Qed.

Lemma pearson_defined (x y : list R) :
  0 < dot (dev x) (dev x) -> 0 < dot (dev y) (dev y) ->
  x <> [] -> exists v, pearson x y = Some v.
Proof.
  intros Hx Hy Hne. unfold pearson.
  destruct x as [|x0 x]; [congruence|].
  cbn [length Nat.ltb Nat.leb].
  destruct (Req_dec_T _ 0) as [E|E]; [|eauto].
  exfalso.
  assert (0 < sqrt (dot (dev (x0 :: x)) (dev (x0 :: x)) * dot (dev y) (dev y)))
    by (apply sqrt_lt_R0, Rmult_lt_0_compat; assumption).
  lra.
Qed.

Lemma pearson_diag (x : list R) :
  0 < dot (dev x) (dev x) -> x <> [] -> pearson x x = Some 1.
Proof.
  intros Hx Hne. unfold pearson.
  destruct x as [|x0 x]; [congruence|].
  cbn [length Nat.ltb Nat.leb].
  rewrite sqrt_square by lra.
  destruct (Req_dec_T _ 0) as [E|E]; [lra|].
  f_equal. field. exact E.
Qed.
End PearsonFacts.

Lemma entry_corr cols i j x y :
  nth_error cols i = Some x -> nth_error cols j = Some y ->
  entry (corr cols) i j = Some (pearson x y).
Proof.
  intros Hi Hj. unfold entry, corr.
  rewrite nth_error_map, Hi. simpl.
  rewrite nth_error_map, Hj. reflexivity.
Qed.

Lemma numeric_col_nth (d : DataFrame) i :
  (i < 4)%nat ->
  exists c, In c numeric_cols /\
    nth_error (map (fun c => map Q2R (col c d)) numeric_cols) i =
    Some (map Q2R (col c d)).
Proof.
  intros Hi.
  destruct (nth_error numeric_cols i) as [c|] eqn:E.
  - exists c. split; [eapply nth_error_In; eassumption|].
    rewrite nth_error_map, E. reflexivity.
  - apply nth_error_None in E. simpl in E. lia.
Qed.

Lemma non_constant_R c rs :
  non_constant c rs ->
  exists a b, In a (map Q2R (map c rs)) /\ In b (map Q2R (map c rs)) /\ a <> b.
Proof.
  intros (r1 & r2 & H1 & H2 & Hne).
  exists (Q2R (c r1)), (Q2R (c r2)).
  repeat split.
  - apply in_map, in_map, H1.
  - apply in_map, in_map, H2.
  - intros E. apply Hne. now apply eqR_Qeq.
Qed.

(* ------------------------------------------------------------------ *)
(** ** The empty result, the correlation matrix, the derived column *)

(** C5: when the Row Filter returns no row, the script runs to its end
    without an exception: every group-by-mean table is empty and the
    correlation matrix is the 4 x 4 matrix of NaN; the same holds of each
    aggregation taken alone. *)
Theorem empty_result_aggregations (csv : list Row) (sel : FilterSelection)
    (h : Heap) :
  filtered_rows csv sel = [] ->
  (exists df filtered_df h',
     app csv sel h =
     inr ((df, filtered_df, mkCharts [] [] [] [] [] nan_matrix []), h')) /\
  (forall fld, meanByField fld (labelled (filtered_rows csv sel)) = inr []) /\
  (forall fa fb,
     meanByFieldPair fa fb (labelled (filtered_rows csv sel)) = inr []) /\
  correlationMatrix (labelled (filtered_rows csv sel)) = nan_matrix.
Proof.
  intros Hempty. split; [|split; [|split]].
  - rewrite app_run, Hempty. eauto.
  - intros fld. now rewrite meanByField_labelled, Hempty.
  - intros fa fb. now rewrite meanByFieldPair_labelled, Hempty.
  - now rewrite Hempty.
Qed.

(** The Pearson coefficient over the real numbers: on non-empty rows
    whose four numeric columns are non-constant every entry is a number,
    entry (i, j) equals entry (j, i) and every diagonal entry is 1.  The
    float64 matrix of the script is treated further below. *)
Lemma pearson_exact_symmetric_unit_diagonal (rs : list Row)
    (cols : list (string * list string)) :
  rs <> [] ->
  (forall c, In c numeric_cols -> non_constant c rs) ->
  forall i j, (i < 4)%nat -> (j < 4)%nat ->
    let m := correlationMatrix (mkFrame rs cols) in
    (exists v, entry m i j = Some (Some v) /\ entry m j i = Some (Some v)) /\
    entry m i i = Some (Some 1%R).
Proof.
  intros Hne Hnc i j Hi Hj m. subst m. unfold correlationMatrix.
  destruct (numeric_col_nth (mkFrame rs cols) Hi) as (ci & Hci & Ei).
  destruct (numeric_col_nth (mkFrame rs cols) Hj) as (cj & Hcj & Ej).
  unfold col in *. cbn [rows] in *.
  assert (Hpos : forall c, In c numeric_cols ->
            (0 < dot (dev (map Q2R (map c rs))) (dev (map Q2R (map c rs))))%R).
  { intros c Hc. apply dev_self_pos, non_constant_R, Hnc, Hc. }
  assert (Hne' : forall c, map Q2R (map c rs) <> []).
  { intros c E. apply map_eq_nil in E. apply map_eq_nil in E. contradiction. }
  split.
  - destruct (@pearson_defined (map Q2R (map ci rs)) (map Q2R (map cj rs))
                (Hpos ci Hci) (Hpos cj Hcj) (Hne' ci)) as [v Hv].
    exists v. split.
    + erewrite entry_corr by eassumption. now rewrite Hv.
    + erewrite entry_corr by eassumption.
      rewrite pearson_sym by now rewrite !length_map.
      now rewrite Hv.
  - erewrite entry_corr by eassumption.
    now rewrite pearson_diag by auto.
Qed.

(** C10: assigning the derived column changes the frame behind
    [filtered_df] by exactly one new column: its rows (hence every CSV
    field, the number and the order of the records) and its other columns
    stay as they were, and every other object of the heap is untouched.  In
    the script [df] is such another object: at the end it holds the CSV as
    loaded, and [filtered_df] holds the filtered rows and the single
    column comorbidity. *)
Theorem comorbidity_frame (csv : list Row) (sel : FilterSelection) (h : Heap) :
  (forall (h0 : Heap) (o : ObjId) (f : DataFrame),
     nth_error h0 o = Some f ->
     ~ In "comorbidity" (map fst (extra f)) ->
     exists lbl h1,
       assign_comorbidity o h0 = inr (tt, h1) /\
       comorbidity f = inr lbl /\
       length lbl = length (rows f) /\
       nth_error h1 o =
         Some (mkFrame (rows f) (extra f ++ [("comorbidity", lbl)])) /\
       length h1 = length h0 /\
       forall o', o' <> o -> nth_error h1 o' = nth_error h0 o') /\
  (exists df filtered_df charts h1 lbl,
     app csv sel h = inr ((df, filtered_df, charts), h1) /\
     df <> filtered_df /\
     nth_error h1 df = Some (mkFrame csv []) /\
     nth_error h1 filtered_df =
       Some (mkFrame (filtered_rows csv sel) [("comorbidity", lbl)]) /\
     length lbl = length (filtered_rows csv sel) /\
     forall o, (o < length h)%nat -> nth_error h1 o = nth_error h o).
Proof.
  split.
  - intros h0 o f Ho Hfresh.
    exists (map classify (rows f)).
    eexists. split; [apply assign_comorbidity_run; exact Ho|].
    assert (Hlt : (o < length h0)%nat) by (apply nth_error_Some; congruence).
    split; [apply comorbidity_classify|].
    split; [apply length_map|].
    split; [|split].
    + rewrite update_same by assumption.
      now rewrite set_column_fresh.
    + apply update_length.
    + intros o' Hneq. apply update_other. congruence.
  - exists (length h), (S (length h)), (charts_of (filtered_rows csv sel)).
    exists (h ++ [mkFrame csv []; labelled (filtered_rows csv sel)]).
    exists (map classify (filtered_rows csv sel)).
    split; [apply app_run|].
    split; [lia|].
    split; [|split; [|split]].
    + rewrite nth_error_app2, Nat.sub_diag by lia. reflexivity.
    + rewrite nth_error_app2 by lia.
      replace (S (length h) - length h)%nat with 1%nat by lia.
      simpl. now rewrite labelled_eq.
    + apply length_map.
    + intros o Ho. now apply nth_error_app1.
Qed.

(* ------------------------------------------------------------------ *)
(** ** Concrete runs *)

Example filter_male_hypertensive :
  filtered_rows sample
    (mkSelection ["Male"] ["65+"; "50-65"; "18-35"; "35-50"]
       ["never"; "former"; "current"] [0; 1] [1])
  = [patient2; patient3].
Proof. reflexivity. Qed.

Example filter_default_selection :
  filtered_rows sample select_all = sample.
Proof. reflexivity. Qed.

Example comorbidity_sample :
  comorbidity (mkFrame sample []) =
  inr ["Heart Disease Only"; "Both"; "Hypertension Only"; "None"].
Proof. reflexivity. Qed.

Example comorb_chart_sample :
  meanByField Comorbidity (labelled sample) =
  inr [("Both", Some (1 # 1)); ("Heart Disease Only", Some (0 # 1));
       ("Hypertension Only", Some (0 # 1)); ("None", Some (0 # 1))].
Proof. reflexivity. Qed.

Example gender_chart_sample :
  meanByField Gender (labelled sample) =
  inr [("Female", Some (0 # 2)); ("Male", Some (1 # 2))].
Proof. reflexivity. Qed.

Example np_select_length_mismatch :
  np_select [[true; false]] ["a"; "b"] "c" =
  inl (ValueError "list of cases must be same length as list of conditions").
Proof. reflexivity. Qed.

Example groupby_before_assignment :
  meanByField Comorbidity (mkFrame sample []) = inl (KeyError "comorbidity").
Proof. reflexivity. Qed.

Lemma row_filter_empty_selection_witness :
  gender_filter select_no_gender = [] /\
  filtered_rows sample select_no_gender = [].
Proof.
  split; [reflexivity|].
  apply (row_filter_empty_selection sample select_no_gender []).
  left. reflexivity.
Defined.

Lemma comorbidity_scenario_witness :
  comorbidity (mkFrame [patient2; patient3; patient4] []) =
  inr ["Both"; "Hypertension Only"; "None"].
Proof.
  apply (comorbidity_scenario patient2 patient3 patient4 []); reflexivity.
Defined.

Lemma sample_outcome_binary :
  Forall (fun r => diabetes r = 0 \/ diabetes r = 1) sample.
Proof.
  unfold sample.
  repeat (apply Forall_cons; [cbn; auto|]).
  apply Forall_nil.
Defined.

Lemma meanByField_table_witness :
  Forall (fun r => diabetes r = 0 \/ diabetes r = 1) sample /\
  exists t,
    meanByField Comorbidity (labelled sample) = inr t /\
    NoDup (map fst t) /\
    (forall v, In v (map fst t) <-> members Comorbidity v sample <> []) /\
    Forall (fun kv : string * option Q =>
              let g := members Comorbidity (fst kv) sample in
              exists q, snd kv = Some q /\
                (q == inject_Z (Z.of_nat (positives g)) /
                      inject_Z (Z.of_nat (length g)))%Q /\
                (0 <= q <= 1)%Q) t.
Proof.
  split; [exact sample_outcome_binary|].
  exact (meanByField_table Comorbidity sample_outcome_binary).
Defined.

Lemma empty_result_aggregations_witness :
  filtered_rows sample select_no_gender = [] /\
  (exists df filtered_df h',
     app sample select_no_gender [] =
     inr ((df, filtered_df, mkCharts [] [] [] [] [] nan_matrix []), h')) /\
  meanByField AgeGroup (labelled (filtered_rows sample select_no_gender)) =
  inr [].
Proof.
  split; [reflexivity|].
  destruct (empty_result_aggregations sample select_no_gender []
              (eq_refl : filtered_rows sample select_no_gender = []))
    as (Happ & Hmean & _).
  split; [exact Happ|exact (Hmean AgeGroup)].
Defined.

Lemma sample_non_constant :
  forall c, In c numeric_cols -> non_constant c sample.
Proof.
  intros c Hc. exists patient1, patient2.
  split; [simpl; auto|]. split; [simpl; auto|].
  simpl in Hc.
  destruct Hc as [<-|[<-|[<-|[<-|[]]]]]; unfold Qeq; simpl; discriminate.
Defined.


(* ================================================================== *)
(** * Further properties of the script *)

(** ** Widgets and the Row Filter *)

Lemma filter_all {A} (p : A -> bool) (l : list A) :
  (forall x, In x l -> p x = true) -> filter p l = l.
Proof.
  induction l as [|x l IH]; simpl; intros H; [reflexivity|].
  rewrite (H x) by now left.
  rewrite IH; [reflexivity|]. intros y Hy. apply H. now right.
Qed.

Lemma Z_eqb_spec (a b : Z) : (a =? b) = true <-> a = b.
Proof. apply Z.eqb_eq. Qed.

(** X1: at the first rendering, when every multiselect still holds its
    default (all distinct values of its column), the Row Filter keeps the
    whole dataset, in order. *)
Theorem default_selection_keeps_all (csv : list Row) :
  filtered_rows csv (default_selection (mkFrame csv [])) = csv.
Proof.
  rewrite filtered_rows_filter. apply filter_all.
  intros r Hr. apply selectedb_spec.
  unfold selected, default_selection, col. cbn.
  repeat split.
  - apply (@unique_In _ _ String.leb string_eqb_spec), in_map, Hr.
  - apply (@unique_In _ _ String.leb string_eqb_spec), in_map, Hr.
  - apply (@unique_In _ _ String.leb string_eqb_spec), in_map, Hr.
  - apply (@unique_In _ _ Z.leb Z_eqb_spec), in_map, Hr.
  - apply (@unique_In _ _ Z.leb Z_eqb_spec), in_map, Hr.
Qed.

Lemma selected_incl s1 s2 r :
  selection_incl s1 s2 -> selected s1 r -> selected s2 r.
Proof.
  unfold selection_incl, selected, incl.
  intros (I1 & I2 & I3 & I4 & I5) (H1 & H2 & H3 & H4 & H5).
  repeat split; auto.
Qed.

Lemma filter_filter_narrow {A} (p q : A -> bool) (l : list A) :
  (forall x, p x = true -> q x = true) ->
  filter p (filter q l) = filter p l.
Proof.
  intros H. induction l as [|x l IH]; simpl; [reflexivity|].
  destruct (q x) eqn:Q; simpl.
  - now rewrite IH.
  - destruct (p x) eqn:P; [|exact IH].
    apply H in P. congruence.
Qed.

(** X2: narrowing the selection only removes rows: when every value
    selected by [s1] is also selected by [s2], filtering with [s1] gives
    what filtering the result of [s2] with [s1] gives, a subsequence of
    the result of [s2]. *)
Theorem narrower_selection_fewer_rows (csv : list Row)
    (s1 s2 : FilterSelection) :
  selection_incl s1 s2 ->
  filtered_rows csv s1 = filtered_rows (filtered_rows csv s2) s1 /\
  subseq (filtered_rows csv s1) (filtered_rows csv s2).
Proof.
  intros Hincl.
  assert (E : filtered_rows csv s1 = filtered_rows (filtered_rows csv s2) s1).
  { rewrite !filtered_rows_filter. symmetry. apply filter_filter_narrow.
    intros r Hr. apply selectedb_spec. apply selectedb_spec in Hr.
    eapply selected_incl; eassumption. }
  split; [exact E|].
  rewrite E, (filtered_rows_filter (filtered_rows csv s2)).
  apply filter_subseq.
Qed.

Lemma filter_comm {A} (p q : A -> bool) (l : list A) :
  filter p (filter q l) = filter q (filter p l).
Proof.
  induction l as [|x l IH]; simpl; [reflexivity|].
  destruct (p x) eqn:P, (q x) eqn:Q; simpl; rewrite ?P, ?Q, IH; reflexivity.
Qed.

(** X3: filtering twice is filtering with both selections, in either
    order, and filtering again with the same selection changes nothing. *)
Theorem row_filter_commutes_idempotent (csv : list Row)
    (s1 s2 : FilterSelection) :
  filtered_rows (filtered_rows csv s1) s2 =
  filtered_rows (filtered_rows csv s2) s1 /\
  filtered_rows (filtered_rows csv s1) s2 =
  filter (fun r => selectedb s1 r && selectedb s2 r) csv /\
  filtered_rows (filtered_rows csv s1) s1 = filtered_rows csv s1.
Proof.
  rewrite !filtered_rows_filter.
  split; [apply filter_comm|]. split.
  - induction csv as [|r csv IH]; simpl; [reflexivity|].
    destruct (selectedb s1 r); simpl; [|exact IH].
    destruct (selectedb s2 r); now rewrite IH.
  - apply filter_filter_narrow. auto.
Qed.

(** X4: a selection acts as a set: two selections with the same members
    in every field (whatever the order and the repetitions of their
    lists) keep the same rows. *)
Theorem selection_order_irrelevant (csv : list Row) (s1 s2 : FilterSelection) :
  selection_incl s1 s2 -> selection_incl s2 s1 ->
  filtered_rows csv s1 = filtered_rows csv s2.
Proof.
  intros H12 H21. rewrite !filtered_rows_filter.
  apply filter_ext. intros r.
  apply eq_true_iff_eq. rewrite !selectedb_spec.
  split; apply selected_incl; assumption.
Qed.

(* ------------------------------------------------------------------ *)
(** ** [np.select] in general *)

Lemma copyto_length {A} (result : list A) a cond :
  length (copyto result a cond) = Nat.min (length result) (length cond).
Proof. unfold copyto. now rewrite length_map, length_combine. Qed.

Lemma copyto_nth_error {A} (result : list A) a cond i r b :
  nth_error result i = Some r -> nth_error cond i = Some b ->
  nth_error (copyto result a cond) i = Some (if b then a else r).
Proof.
  unfold copyto. revert cond i.
  induction result as [|x result IH]; intros [|c cond] [|i]; simpl;
    try discriminate.
  - intros [= ->] [= ->]. reflexivity.
  - apply IH.
Qed.

Lemma nth_error_nth_lt {A} (l : list A) i d :
  (i < length l)%nat -> nth_error l i = Some (nth i l d).
Proof.
  revert i. induction l as [|x l IH]; intros [|i]; simpl; intros H;
    try lia; [reflexivity|apply IH; lia].
Qed.

Lemma select_fold_spec {A} (condlist : list (list bool)) (choicelist : list A)
    (default : A) (n : nat) :
  Forall (fun c => length c = n) condlist ->
  let res := fold_right (fun cc result => copyto result (snd cc) (fst cc))
               (repeat default n) (combine condlist choicelist) in
  length res = n /\
  forall i, (i < n)%nat ->
    nth_error res i =
    Some (first_match (conds_at condlist i) choicelist default).
Proof.
  intros Hshape. revert choicelist.
  induction Hshape as [|c cs Hc _ IH]; intros choicelist.
  - simpl. split; [apply repeat_length|].
    intros i Hi. rewrite (nth_error_nth_lt _ default)
      by now rewrite repeat_length.
    now rewrite nth_repeat.
  - destruct choicelist as [|a choicelist].
    + simpl. split; [apply repeat_length|].
      intros i Hi. rewrite (nth_error_nth_lt _ default)
        by now rewrite repeat_length.
      now rewrite nth_repeat.
    + destruct (IH choicelist) as [Hlen Hnth].
      cbn [combine fold_right fst snd]. split.
      * rewrite copyto_length. lia.
      * intros i Hi. cbn [conds_at map first_match].
        apply copyto_nth_error; [now apply Hnth|].
        apply nth_error_nth_lt. lia.
Qed.

Lemma forallb_length (condlist : list (list bool)) n :
  forallb (fun c => (length c =? n)%nat) condlist = true <->
  Forall (fun c => length c = n) condlist.
Proof.
  rewrite forallb_forall, Forall_forall.
  split; intros H c Hc; apply Nat.eqb_eq; auto.
Qed.

Lemma np_select_run {A} (condlist : list (list bool))
    (choicelist : list A) (default : A) (n : nat) :
  condlist <> [] ->
  length condlist = length choicelist ->
  Forall (fun c => length c = n) condlist ->
  np_select condlist choicelist default =
  inr (fold_right (fun cc result => copyto result (snd cc) (fst cc))
         (repeat default n) (combine condlist choicelist)).
Proof.
  intros Hne Hlen Hshape. unfold np_select.
  rewrite Hlen, Nat.eqb_refl. cbn [negb].
  destruct condlist as [|c cs]; [congruence|].
  assert (Hc : length c = n) by now inversion Hshape.
  rewrite Hc.
  now rewrite (proj2 (forallb_length (c :: cs) n) Hshape).
Qed.

(** X5: [np.select] on any non-empty list of conditions of one length [n],
    with as many choices: it returns [n] values, and the value at a
    position is the choice of the first condition that holds there, or
    the default when none holds. *)
Theorem np_select_first_match {A} (condlist : list (list bool))
    (choicelist : list A) (default : A) (n : nat) :
  condlist <> [] ->
  length condlist = length choicelist ->
  Forall (fun c => length c = n) condlist ->
  exists res,
    np_select condlist choicelist default = inr res /\
    length res = n /\
    forall i, (i < n)%nat ->
      nth_error res i =
      Some (first_match (conds_at condlist i) choicelist default).
Proof.
  intros Hne Hlen Hshape.
  eexists. split; [apply np_select_run with (n := n); assumption|].
  now apply select_fold_spec.
Qed.

(* ------------------------------------------------------------------ *)
(** ** Column assignment and lookup *)

Lemma getitem_extra_missing cols name :
  ~ In name (map fst cols) <-> getitem_extra cols name = inl (KeyError name).
Proof.
  induction cols as [|[n c] cols IH]; simpl.
  - tauto.
  - destruct (String.eqb_spec n name) as [E|E].
    + split; [tauto|discriminate].
    + rewrite <- IH. tauto.
Qed.

(** X6: a column read back after its assignment is the assigned Series;
    the assignment leaves every column of another name, and the order of
    the column names, as they were, adding the name at the end only when
    it is new. *)
Theorem set_column_getitem (name : string) (vals : list string)
    (cols : list (string * list string)) :
  getitem_extra (set_column name vals cols) name = inr vals /\
  (forall other, other <> name ->
     getitem_extra (set_column name vals cols) other =
     getitem_extra cols other) /\
  (In name (map fst cols) ->
     map fst (set_column name vals cols) = map fst cols) /\
  (~ In name (map fst cols) ->
     map fst (set_column name vals cols) = map fst cols ++ [name]).
Proof.
  induction cols as [|[n c] cols (IH1 & IH2 & IH3 & IH4)]; simpl.
  - rewrite String.eqb_refl. repeat split; try tauto.
    intros other Ho. destruct (String.eqb_spec name other); congruence.
  - destruct (String.eqb_spec n name) as [E|E]; simpl.
    + subst n. rewrite String.eqb_refl. repeat split; try tauto.
      intros other Ho.
      destruct (String.eqb_spec name other); [congruence|reflexivity].
    + destruct (String.eqb_spec n name); [congruence|].
      split; [exact IH1|]. split; [|split].
      * intros other Ho. destruct (String.eqb_spec n other); auto.
      * intros [H|H]; [congruence|]. now rewrite IH3.
      * intros H. rewrite IH4; tauto.
Qed.

Lemma set_column_idem name vals cols :
  set_column name vals (set_column name vals cols) =
  set_column name vals cols.
Proof.
  induction cols as [|[n c] cols IH]; simpl.
  - now rewrite String.eqb_refl.
  - destruct (String.eqb_spec n name) as [E|E]; simpl.
    + subst. now rewrite String.eqb_refl.
    + destruct (String.eqb_spec n name); [congruence|]. now rewrite IH.
Qed.

Lemma update_update {A} (l : list A) i a b :
  update (update l i a) i b = update l i b.
Proof.
  revert i. induction l as [|x l IH]; intros [|i]; simpl; try reflexivity.
  now rewrite IH.
Qed.

(** X7: lines 81-87 can be run again on the same frame: the second run
    succeeds and leaves the heap as the first run left it (the column is
    replaced by an equal one, not added a second time). *)
Theorem assign_comorbidity_idempotent (h : Heap) (o : ObjId) (f : DataFrame) :
  nth_error h o = Some f ->
  exists h1,
    assign_comorbidity o h = inr (tt, h1) /\
    assign_comorbidity o h1 = inr (tt, h1).
Proof.
  intros Ho.
  assert (Hlt : (o < length h)%nat) by (apply nth_error_Some; congruence).
  eexists. split; [apply assign_comorbidity_run; exact Ho|].
  erewrite assign_comorbidity_run by (apply update_same; exact Hlt).
  cbn [rows extra]. now rewrite set_column_idem, update_update.
Qed.

(** X8: the comorbidity chart needs the derived column: grouping by
    comorbidity raises KeyError exactly on the frames without a column of
    that name, while grouping by a CSV column never raises. *)
Theorem comorbidity_chart_needs_column (d : DataFrame) :
  (meanByField Comorbidity d = inl (KeyError "comorbidity") <->
   ~ In "comorbidity" (map fst (extra d))) /\
  (In "comorbidity" (map fst (extra d)) ->
   exists t, meanByField Comorbidity d = inr t) /\
  (forall fld, fld <> Comorbidity -> exists t, meanByField fld d = inr t).
Proof.
  unfold meanByField. split; [|split].
  - cbn [key_column]. rewrite getitem_extra_missing.
    destruct (getitem_extra (extra d) "comorbidity") as [e|keys].
    + split; congruence.
    + split; discriminate.
  - intros Hin. cbn [key_column].
    destruct (getitem_extra (extra d) "comorbidity") as [e|keys] eqn:E;
      [|eauto].
    exfalso.
    induction (extra d) as [|[n c] cols IH]; simpl in *; [contradiction|].
    destruct (String.eqb_spec n "comorbidity") as [E'|E']; [discriminate|].
    apply IH; [|exact E]. destruct Hin; [contradiction|assumption].
  - intros fld Hfld. destruct fld; cbn [key_column]; eauto. congruence.
Qed.


Lemma assign_comorbidity_idempotent_witness :
  exists h1,
    assign_comorbidity 0%nat [mkFrame sample []] = inr (tt, h1) /\
    assign_comorbidity 0%nat h1 = inr (tt, h1).
Proof.
  apply (@assign_comorbidity_idempotent [mkFrame sample []] 0%nat
           (mkFrame sample [])).
  reflexivity.
Defined.

Lemma np_select_first_match_witness :
  exists res,
    np_select (conditions (mkFrame sample [])) choices "None" = inr res /\
    length res = 4%nat /\
    forall i, (i < 4)%nat ->
      nth_error res i =
      Some (first_match (conds_at (conditions (mkFrame sample [])) i)
              choices "None").
Proof.
  apply (@np_select_first_match string (conditions (mkFrame sample []))
           choices "None" 4).
  - discriminate.
  - reflexivity.
  - repeat constructor.
Defined.

(* ------------------------------------------------------------------ *)
(** ** Groups as a partition of the rows; order of the table *)

Section GroupByPartition.
Variable K : Type.
Variable eqb : K -> K -> bool.
Hypothesis eqb_spec : forall a b, eqb a b = true <-> a = b.

Lemma indicator_sum_absent (a : K) (c : nat) (ks : list K) :
  ~ In a ks ->
  list_sum (map (fun k => if eqb a k then c else 0%nat) ks) = 0%nat.
Proof.
  induction ks as [|k ks IH]; simpl; intros H; [reflexivity|].
  destruct (eqb a k) eqn:E.
  - apply eqb_spec in E. subst k. tauto.
  - apply IH. tauto.
Qed.

Lemma indicator_sum_present (a : K) (c : nat) (ks : list K) :
  NoDup ks -> In a ks ->
  list_sum (map (fun k => if eqb a k then c else 0%nat) ks) = c.
Proof.
  induction 1 as [|k ks Hk Hnd IH]; simpl; intros Hin; [contradiction|].
  destruct (eqb a k) eqn:E.
  - apply eqb_spec in E. subst k.
    rewrite indicator_sum_absent by assumption. lia.
  - destruct Hin as [->|Hin]; [|now apply IH].
    assert (eqb a a = true) by now apply eqb_spec. congruence.
Qed.

Lemma list_sum_add {A} (f g : A -> nat) (l : list A) :
  list_sum (map (fun x => (f x + g x)%nat) l) =
  (list_sum (map f l) + list_sum (map g l))%nat.
Proof. induction l as [|x l IH]; simpl; [reflexivity|]. rewrite IH. lia. Qed.

(** Every row falls in the group of exactly one key. *)
Lemma partition_sum {A} (key : A -> K) (w : A -> nat) (ks : list K)
    (l : list A) :
  NoDup ks -> (forall x, In x l -> In (key x) ks) ->
  list_sum (map (fun k =>
                   list_sum (map w (filter (fun x => eqb (key x) k) l))) ks)
  = list_sum (map w l).
Proof.
  intros Hnd. induction l as [|x l IH]; intros Hin.
  - simpl. clear. induction ks as [|k ks IHk]; simpl; auto.
  - change (list_sum (map w (x :: l))) with (w x + list_sum (map w l))%nat.
    rewrite <- IH by (intros y Hy; apply Hin; now right).
    rewrite <- (indicator_sum_present (key x) (w x) Hnd)
      by (apply Hin; now left).
    rewrite <- list_sum_add. f_equal. apply map_ext. intros k.
    cbn [filter]. destruct (eqb (key x) k); reflexivity.
Qed.
End GroupByPartition.

Lemma length_as_sum {A} (l : list A) :
  length l = list_sum (map (fun _ => 1%nat) l).
Proof. induction l as [|x l IH]; simpl; [reflexivity|now rewrite IH]. Qed.

Lemma positives_as_sum (rs : list Row) :
  positives rs =
  list_sum (map (fun r => if diabetes r =? 1 then 1%nat else 0%nat) rs).
Proof.
  unfold positives. induction rs as [|r rs IH]; simpl; [reflexivity|].
  destruct (diabetes r =? 1); simpl; now rewrite IH.
Qed.

Lemma table_keys_cover fld rs :
  forall r, In r rs ->
    In (field_value fld r)
       (map fst (groupby_mean String.eqb String.leb
                   (map (field_value fld) rs) (map diabetes rs))).
Proof.
  intros r Hr.
  apply (@groupby_mean_In _ _ String.leb string_eqb_spec).
  now apply in_map.
Qed.

(** X10: the groups of a chart table split the filtered rows: the sizes
    of the groups add up to the number of rows and their numbers of
    diabetic rows add up to the number of diabetic rows. *)
Theorem groups_partition_rows (rs : list Row) (fld : CatField) :
  exists t,
    meanByField fld (labelled rs) = inr t /\
    list_sum (map (fun kv : string * option Q =>
                     length (members fld (fst kv) rs)) t) = length rs /\
    list_sum (map (fun kv : string * option Q =>
                     positives (members fld (fst kv) rs)) t) = positives rs.
Proof.
  eexists. split; [apply meanByField_labelled|].
  set (t := groupby_mean String.eqb String.leb _ _).
  assert (Hnd : NoDup (map fst t))
    by apply groupby_mean_NoDup, string_eqb_spec.
  pose proof (table_keys_cover fld rs) as Hcov. fold t in Hcov.
  split.
  - rewrite (length_as_sum rs).
    rewrite <- (@partition_sum string String.eqb string_eqb_spec Row
                  (field_value fld) (fun _ => 1%nat) (map fst t) rs
                  Hnd Hcov).
    rewrite map_map. f_equal. apply map_ext. intros kv.
    apply length_as_sum.
  - rewrite (positives_as_sum rs).
    rewrite <- (@partition_sum string String.eqb string_eqb_spec Row
                  (field_value fld)
                  (fun r => if diabetes r =? 1 then 1%nat else 0%nat)
                  (map fst t) rs Hnd Hcov).
    rewrite map_map. f_equal. apply map_ext. intros kv.
    apply positives_as_sum.
Qed.

Section GroupByOrder.
Variable K : Type.
Variable leb : K -> K -> bool.
Hypothesis leb_total : forall a b, leb a b = true \/ leb b a = true.
Hypothesis leb_antisym : forall a b, leb a b = true -> leb b a = true -> a = b.
Hypothesis leb_trans :
  forall a b c, leb a b = true -> leb b c = true -> leb a c = true.

Lemma insert_comm x y (l : list K) :
  insert leb x (insert leb y l) = insert leb y (insert leb x l).
Proof.
  induction l as [|z l IH].
  - simpl. destruct (leb x y) eqn:Exy, (leb y x) eqn:Eyx; try reflexivity.
    + now rewrite (leb_antisym Exy Eyx).
    + destruct (leb_total x y); congruence.
  - simpl.
    destruct (leb y z) eqn:Eyz, (leb x z) eqn:Exz; simpl;
      rewrite ?Eyz, ?Exz.
    + destruct (leb x y) eqn:Exy, (leb y x) eqn:Eyx; simpl;
        rewrite ?Eyz, ?Exz; try reflexivity.
      * now rewrite (leb_antisym Exy Eyx).
      * destruct (leb_total x y); congruence.
    + destruct (leb x y) eqn:Exy; [|reflexivity].
      pose proof (leb_trans Exy Eyz). congruence.
    + destruct (leb y x) eqn:Eyx; [|reflexivity].
      pose proof (leb_trans Eyx Exz). congruence.
    + now rewrite IH.
Qed.

(** Sorting forgets the order of its input. *)
Lemma sort_Permutation (l l' : list K) :
  Permutation l l' -> sort leb l = sort leb l'.
Proof.
  induction 1 as [|x l l' _ IH|x y l|l l' l'' _ IH1 _ IH2]; simpl.
  - reflexivity.
  - now rewrite IH.
  - apply insert_comm.
  - congruence.
Qed.

Lemma sort_strongly_sorted (l : list K) :
  StronglySorted (fun a b => leb a b = true) (sort leb l).
Proof.
  apply Sorted_StronglySorted.
  - intros a b c. apply leb_trans.
  - apply sort_sorted. exact leb_total.
Qed.
End GroupByOrder.

Lemma string_leb_trans (a b c : string) :
  String.leb a b = true -> String.leb b c = true -> String.leb a c = true.
Proof.
  unfold String.leb.
  destruct (String.compare a b) eqn:Eab; try discriminate;
    destruct (String.compare b c) eqn:Ebc; try discriminate; intros _ _.
  - apply OrderedTypeEx.String_as_OT.cmp_eq in Eab. subst.
    unfold OrderedTypeEx.String_as_OT.cmp in Ebc. now rewrite Ebc.
  - apply OrderedTypeEx.String_as_OT.cmp_eq in Eab. subst. now rewrite Ebc.
  - apply OrderedTypeEx.String_as_OT.cmp_eq in Ebc. subst. now rewrite Eab.
  - apply OrderedTypeEx.String_as_OT.cmp_lt in Eab, Ebc.
    pose proof (OrderedTypeEx.String_as_OT.lt_trans _ _ _ Eab Ebc) as H.
    apply OrderedTypeEx.String_as_OT.cmp_lt in H.
    unfold OrderedTypeEx.String_as_OT.cmp in H. now rewrite H.
Qed.

Lemma pair_leb_antisym (a b : string * string) :
  pair_leb a b = true -> pair_leb b a = true -> a = b.
Proof.
  destruct a as [a1 a2], b as [b1 b2]. unfold pair_leb. simpl.
  rewrite (String.eqb_sym b1 a1).
  destruct (String.eqb_spec a1 b1) as [E|E]; intros H1 H2.
  - subst. f_equal. now apply String.leb_antisym.
  - exfalso. apply E. now apply String.leb_antisym.
Qed.

Lemma pair_leb_trans (a b c : string * string) :
  pair_leb a b = true -> pair_leb b c = true -> pair_leb a c = true.
Proof.
  destruct a as [a1 a2], b as [b1 b2], c as [c1 c2]. unfold pair_leb. simpl.
  destruct (String.eqb_spec a1 b1) as [E1|E1],
           (String.eqb_spec b1 c1) as [E2|E2],
           (String.eqb_spec a1 c1) as [E3|E3];
    subst; try congruence; intros H1 H2.
  - eapply string_leb_trans; eassumption.
  - exfalso. apply E1. now apply String.leb_antisym.
  - eapply string_leb_trans; eassumption.
Qed.

(** X11: the lines of every chart table come in ascending key order
    (strings by byte order, pairs of keys column by column): each key is
    below or equal to all the keys after it. *)
Theorem chart_tables_sorted (rs : list Row) (fld fa fb : CatField) :
  (exists t,
     meanByField fld (labelled rs) = inr t /\
     StronglySorted (fun a b => String.leb a b = true) (map fst t)) /\
  (exists t,
     meanByFieldPair fa fb (labelled rs) = inr t /\
     StronglySorted (fun a b => pair_leb a b = true) (map fst t)).
Proof.
  split; eexists.
  - split; [apply meanByField_labelled|].
    rewrite groupby_mean_keys.
    apply sort_strongly_sorted; [apply String.leb_total|].
    apply string_leb_trans.
  - split; [apply meanByFieldPair_labelled|].
    rewrite groupby_mean_keys.
    apply sort_strongly_sorted; [apply pair_leb_total|].
    apply pair_leb_trans.
Qed.

(** X12: the comorbidity chart has at most four bars, and each bar is one
    of the four labels. *)
Theorem comorb_chart_at_most_four (rs : list Row) :
  exists t,
    meanByField Comorbidity (labelled rs) = inr t /\
    incl (map fst t) labels /\
    (length t <= 4)%nat.
Proof.
  eexists. split; [apply meanByField_labelled|].
  set (t := groupby_mean String.eqb String.leb _ _).
  assert (Hincl : incl (map fst t) labels).
  { intros k Hk.
    apply (@groupby_mean_In _ _ String.leb string_eqb_spec) in Hk.
    apply in_map_iff in Hk. destruct Hk as (r & <- & _).
    apply classify_in_labels. }
  split; [exact Hincl|].
  rewrite <- (length_map fst t).
  change 4%nat with (length labels).
  apply NoDup_incl_length; [|exact Hincl].
  apply groupby_mean_NoDup, string_eqb_spec.
Qed.

(* ------------------------------------------------------------------ *)
(** ** The tables do not depend on the order of the rows *)

Lemma filter_Permutation {A} (p : A -> bool) (l l' : list A) :
  Permutation l l' -> Permutation (filter p l) (filter p l').
Proof.
  induction 1 as [|x l l' _ IH|x y l|l l' l'' _ IH1 _ IH2]; simpl.
  - constructor.
  - destruct (p x); [now constructor|assumption].
  - destruct (p x), (p y); try reflexivity. apply perm_swap.
  - now transitivity (filter p l').
Qed.

Lemma Zsum_Permutation (a b : list Z) : Permutation a b -> Zsum a = Zsum b.
Proof.
  induction 1 as [|x l l' _ IH|x y l|l l' l'' _ IH1 _ IH2]; simpl; lia.
Qed.

Lemma mean_Permutation (a b : list Z) : Permutation a b -> mean a = mean b.
Proof.
  intros H.
  pose proof (Zsum_Permutation H) as Hs.
  pose proof (Permutation_length H) as Hl.
  destruct a as [|x a], b as [|y b]; try discriminate; [reflexivity|].
  unfold mean. now rewrite Hs, Hl.
Qed.

Section GroupByPermutation.
Variable K : Type.
Variable eqb : K -> K -> bool.
Variable leb : K -> K -> bool.
Hypothesis eqb_spec : forall a b, eqb a b = true <-> a = b.
Hypothesis leb_total : forall a b, leb a b = true \/ leb b a = true.
Hypothesis leb_antisym : forall a b, leb a b = true -> leb b a = true -> a = b.
Hypothesis leb_trans :
  forall a b c, leb a b = true -> leb b c = true -> leb a c = true.

Lemma groupby_mean_Permutation {A} (key : A -> K) (val : A -> Z)
    (l l' : list A) :
  Permutation l l' ->
  groupby_mean eqb leb (map key l) (map val l) =
  groupby_mean eqb leb (map key l') (map val l').
Proof.
  intros H. unfold groupby_mean.
  assert (Hk : sort leb (unique eqb (map key l)) =
               sort leb (unique eqb (map key l'))).
  { apply (@sort_Permutation _ leb leb_total leb_antisym leb_trans).
    apply NoDup_Permutation;
      try (apply (@unique_NoDup _ eqb eqb_spec)).
    intros k. rewrite !(@unique_In _ eqb leb eqb_spec).
    split; apply Permutation_in;
      [apply Permutation_map, H|apply Permutation_map; now symmetry]. }
  rewrite Hk. apply map_ext. intros k. f_equal.
  rewrite !group_rows.
  apply mean_Permutation, Permutation_map, filter_Permutation, H.
Qed.
End GroupByPermutation.

(** X13: the chart tables depend on which rows were kept, not on their
    order: two filtered record sets that are permutations of each other
    give the same single-field and two-field tables. *)
Theorem chart_tables_row_order (rs rs' : list Row) (fld fa fb : CatField) :
  Permutation rs rs' ->
  meanByField fld (labelled rs) = meanByField fld (labelled rs') /\
  meanByFieldPair fa fb (labelled rs) = meanByFieldPair fa fb (labelled rs').
Proof.
  intros H. rewrite !meanByField_labelled, !meanByFieldPair_labelled.
  split; f_equal.
  - apply (@groupby_mean_Permutation _ String.eqb String.leb
             string_eqb_spec String.leb_total String.leb_antisym
             string_leb_trans); exact H.
  - apply (@groupby_mean_Permutation _ pair_eqb pair_leb
             pair_eqb_spec pair_leb_total pair_leb_antisym pair_leb_trans
             _ (fun r => (field_value fa r, field_value fb r))); exact H.
Qed.

Lemma chart_tables_row_order_witness :
  meanByField Gender (labelled [patient2; patient1; patient4; patient3]) =
  meanByField Gender (labelled sample).
Proof.
  apply (@chart_tables_row_order [patient2; patient1; patient4; patient3]
           sample Gender Gender Gender).
  unfold sample.
  eapply perm_trans; [apply perm_swap|].
  do 2 apply perm_skip. apply perm_swap.
Defined.

(* ------------------------------------------------------------------ *)
(** ** Filter and tables together *)

Lemma table_key_row fld rs k :
  In k (map fst (groupby_mean String.eqb String.leb
                   (map (field_value fld) rs) (map diabetes rs))) <->
  exists r, In r rs /\ field_value fld r = k.
Proof.
  rewrite (@groupby_mean_In _ _ String.leb string_eqb_spec), in_map_iff.
  split; intros (r & H1 & H2); exists r; tauto.
Qed.

Lemma pair_table_key_row fa fb rs k :
  In k (map fst (groupby_mean pair_eqb pair_leb
                   (map (fun r => (field_value fa r, field_value fb r)) rs)
                   (map diabetes rs))) <->
  exists r, In r rs /\ (field_value fa r, field_value fb r) = k.
Proof.
  rewrite (@groupby_mean_In _ _ pair_leb pair_eqb_spec), in_map_iff.
  split; intros (r & H1 & H2); exists r; tauto.
Qed.

Lemma filtered_row_selected csv sel r :
  In r (filtered_rows csv sel) -> selected sel r.
Proof.
  rewrite filtered_rows_filter, filter_In, selectedb_spec. tauto.
Qed.

(** X14: a chart shows only what was selected: every key of the gender,
    age-group and smoking-history tables of the filtered rows is a member
    of the corresponding selection. *)
Theorem chart_keys_selected (csv : list Row) (sel : FilterSelection) :
  let d := labelled (filtered_rows csv sel) in
  (exists t, meanByField Gender d = inr t /\
     incl (map fst t) (gender_filter sel)) /\
  (exists t, meanByField AgeGroup d = inr t /\
     incl (map fst t) (age_group_filter sel)) /\
  (exists t, meanByField SmokingHistory d = inr t /\
     incl (map fst t) (smoking_filter sel)).
Proof.
  cbn zeta. rewrite !meanByField_labelled.
  repeat split; eexists; (split; [reflexivity|]);
    intros k Hk; apply table_key_row in Hk;
    destruct Hk as (r & Hr & <-);
    apply filtered_row_selected in Hr;
    unfold selected in Hr; cbn [field_value]; tauto.
Qed.

(** X15: the two-field table refines the single-field ones: a value is a
    key of the table of [fa] (of [fb]) exactly when it is the first
    (second) component of a key of the table of the pair, and the pair
    table has at most as many lines as there are combinations of keys of
    the two single-field tables. *)
Theorem pair_table_marginals (rs : list Row) (fa fb : CatField) :
  exists ta tb tp,
    meanByField fa (labelled rs) = inr ta /\
    meanByField fb (labelled rs) = inr tb /\
    meanByFieldPair fa fb (labelled rs) = inr tp /\
    (forall a, In a (map fst ta) <-> exists b, In (a, b) (map fst tp)) /\
    (forall b, In b (map fst tb) <-> exists a, In (a, b) (map fst tp)) /\
    (length tp <= length ta * length tb)%nat.
Proof.
  do 3 eexists.
  split; [apply meanByField_labelled|].
  split; [apply meanByField_labelled|].
  split; [apply meanByFieldPair_labelled|].
  split; [|split].
  - intros a. rewrite table_key_row. split.
    + intros (r & Hr & <-). exists (field_value fb r).
      apply pair_table_key_row. now exists r.
    + intros (b & Hb). apply pair_table_key_row in Hb.
      destruct Hb as (r & Hr & E). exists r. now inversion E.
  - intros b. rewrite table_key_row. split.
    + intros (r & Hr & <-). exists (field_value fa r).
      apply pair_table_key_row. now exists r.
    + intros (a & Ha). apply pair_table_key_row in Ha.
      destruct Ha as (r & Hr & E). exists r. now inversion E.
  - rewrite <- (length_map fst), <- (length_map fst (groupby_mean String.eqb _ _ _)),
      <- (length_map fst (groupby_mean String.eqb String.leb
                            (map (field_value fb) rs) _)).
    rewrite <- length_prod.
    apply NoDup_incl_length; [apply groupby_mean_NoDup, pair_eqb_spec|].
    intros [a b] Hk. apply pair_table_key_row in Hk.
    destruct Hk as (r & Hr & E). inversion E; subst.
    apply in_prod; apply table_key_row; now exists r.
Qed.

(* ------------------------------------------------------------------ *)
(** ** More on the correlation matrix *)

Section PearsonBounds.
Local Open Scope R_scope.

Lemma dot_cons x y (a b : list R) :
  dot (x :: a) (y :: b) = x * y + dot a b.
Proof. reflexivity. Qed.

Lemma cauchy_schwarz (a b : list R) :
  dot a b * dot a b <= dot a a * dot b b.
Proof.
  revert b. induction a as [|x a IH]; intros [|y b].
  - unfold dot; simpl; lra.
  - unfold dot at 1 2 3; simpl. lra.
  - unfold dot at 1 2 4; simpl. lra.
  - rewrite !dot_cons.
    specialize (IH b).
    pose proof (dot_self_nonneg a) as HA.
    pose proof (dot_self_nonneg b) as HB.
    set (s := dot a b) in *. set (A := dot a a) in *.
    set (B := dot b b) in *.
    assert (Hkey : 2 * s * x * y <= A * (y * y) + B * (x * x)).
    { destruct (Rle_lt_or_eq_dec 0 A HA) as [Apos|Azero].
      - pose proof (Rle_0_sqr (A * y - s * x)) as Hsq. unfold Rsqr in Hsq.
        assert (0 <= (A * B - s * s) * (x * x))
          by (apply Rmult_le_pos; [lra|exact (Rle_0_sqr x)]).
        apply Rmult_le_reg_l with A; [exact Apos|]. nra.
      - rewrite <- Azero in *.
        assert (Hs : s = 0).
        { pose proof (Rle_0_sqr s) as Hs. unfold Rsqr in Hs.
          apply Rsqr_0_uniq. unfold Rsqr. lra. }
        rewrite Hs. pose proof (Rle_0_sqr x) as Hx. unfold Rsqr in Hx.
        nra. }
    nra.
Qed.

Lemma pearson_bounded (x y : list R) v :
  pearson x y = Some v -> -1 <= v <= 1.
Proof.
  unfold pearson. destruct (length x <? 1)%nat; [discriminate|].
  set (P := dot (dev x) (dev x) * dot (dev y) (dev y)).
  destruct (Req_dec_T (sqrt P) 0) as [E|E]; [discriminate|].
  intros [= <-].
  pose proof (cauchy_schwarz (dev x) (dev y)) as Hcs. fold P in Hcs.
  assert (HP : 0 <= P)
    by (apply Rmult_le_pos; apply dot_self_nonneg).
  pose proof (sqrt_pos P) as HD.
  pose proof (sqrt_sqrt P HP) as HDD.
  set (D := sqrt P) in *. set (c := dot (dev x) (dev y)) in *.
  assert (Dpos : 0 < D) by lra.
  assert (Hc : - D <= c <= D) by nra.
  split.
  - apply Rmult_le_reg_r with D; [exact Dpos|].
    unfold Rdiv. rewrite Rmult_assoc, Rinv_l by lra. lra.
  - apply Rmult_le_reg_r with D; [exact Dpos|].
    unfold Rdiv. rewrite Rmult_assoc, Rinv_l by lra. lra.
Qed.

Lemma Rsum_const (l : list R) a :
  (forall v, In v l -> v = a) -> Rsum l = INR (length l) * a.
Proof.
  induction l as [|x l IH]; intros H.
  - simpl. lra.
  - change (Rsum (x :: l)) with (x + Rsum l).
    change (length (x :: l)) with (S (length l)). rewrite S_INR.
    rewrite IH by (intros v Hv; apply H; now right).
    rewrite (H x) by now left. lra.
Qed.

Lemma dot_zero (d : list R) : (forall v, In v d -> v = 0) -> dot d d = 0.
Proof.
  induction d as [|x d IH]; intros H; [reflexivity|].
  rewrite dot_cons, IH by (intros v Hv; apply H; now right).
  rewrite (H x) by now left. lra.
Qed.

(** A column whose values are all equal has no deviation. *)
Lemma dev_const (x : list R) :
  (forall u v, In u x -> In v x -> u = v) -> dot (dev x) (dev x) = 0.
Proof.
  intros H. apply dot_zero. intros v Hv.
  unfold dev in Hv. apply in_map_iff in Hv. destruct Hv as (u & <- & Hu).
  destruct x as [|a x]; [contradiction|].
  assert (Hall : forall w, In w (a :: x) -> w = a)
    by (intros w Hw; apply H; [exact Hw|now left]).
  unfold Rmean. rewrite (Rsum_const _ Hall), (Hall u Hu).
  assert (INR (length (a :: x)) <> 0) by (apply not_0_INR; discriminate).
  field. assumption.
Qed.

Lemma pearson_const_l (x y : list R) :
  dot (dev x) (dev x) = 0 -> pearson x y = None.
Proof.
  intros H. unfold pearson. destruct (length x <? 1)%nat; [reflexivity|].
  rewrite H, Rmult_0_l, sqrt_0.
  destruct (Req_dec_T 0 0); [reflexivity|lra].
Qed.

Lemma pearson_const_r (x y : list R) :
  dot (dev y) (dev y) = 0 -> pearson x y = None.
Proof.
  intros H. unfold pearson. destruct (length x <? 1)%nat; [reflexivity|].
  rewrite H, Rmult_0_r, sqrt_0.
  destruct (Req_dec_T 0 0); [reflexivity|lra].
Qed.

End PearsonBounds.

(** X16: for every frame the correlation matrix has four lines of four
    entries, and every entry is NaN or a number between -1 and 1. *)
Theorem correlation_matrix_bounded (d : DataFrame) :
  let m := correlationMatrix d in
  length m = 4%nat /\
  Forall (fun line =>
            length line = 4%nat /\
            Forall (fun e : option R =>
                      match e with
                      | Some v => (-1 <= v <= 1)%R
                      | None => True
                      end) line) m.
Proof.
  cbn zeta. unfold correlationMatrix, corr.
  split; [now rewrite !length_map|].
  apply Forall_forall. intros line Hline.
  apply in_map_iff in Hline. destruct Hline as (x & <- & _).
  split; [now rewrite !length_map|].
  apply Forall_forall. intros e He.
  apply in_map_iff in He. destruct He as (y & <- & _).
  destruct (pearson x y) as [v|] eqn:E; [|exact I].
  now apply pearson_bounded with (x := x) (y := y).
Qed.

Lemma constant_R c rs :
  constant c rs ->
  forall u v, In u (map Q2R (map c rs)) -> In v (map Q2R (map c rs)) -> u = v.
Proof.
  intros Hc u v Hu Hv.
  rewrite map_map in Hu, Hv. apply in_map_iff in Hu, Hv.
  destruct Hu as (r1 & <- & H1), Hv as (r2 & <- & H2).
  apply Qeq_eqR. now apply Hc.
Qed.

(** X17: a numeric column that takes one value only on the filtered rows
    (in particular when a single row is left) has NaN in its whole line
    and its whole column of the correlation matrix, the diagonal entry
    included. *)
Theorem constant_column_nan (rs : list Row)
    (cols : list (string * list string)) (i : nat) (c : Row -> Q) :
  nth_error numeric_cols i = Some c ->
  constant c rs ->
  forall j, (j < 4)%nat ->
    let m := correlationMatrix (mkFrame rs cols) in
    entry m i j = Some None /\ entry m j i = Some None.
Proof.
  intros Hi Hconst j Hj m. subst m. unfold correlationMatrix.
  destruct (numeric_col_nth (mkFrame rs cols) Hj) as (cj & _ & Ej).
  assert (Ei : nth_error
                 (map (fun c => map Q2R (col c (mkFrame rs cols))) numeric_cols) i
               = Some (map Q2R (col c (mkFrame rs cols))))
    by now rewrite nth_error_map, Hi.
  unfold col in *. cbn [rows] in *.
  pose proof (@dev_const _ (constant_R Hconst)) as Hdev.
  split.
  - erewrite entry_corr by eassumption. now rewrite pearson_const_l.
  - erewrite entry_corr by eassumption. now rewrite pearson_const_r.
Qed.

Lemma constant_column_nan_witness :
  let m := correlationMatrix (mkFrame [patient1; patient5] []) in
  entry m 2 0 = Some None /\ entry m 0 2 = Some None.
Proof.
  apply (@constant_column_nan [patient1; patient5] [] 2%nat bmi).
  - reflexivity.
  - intros r1 r2 [<-|[<-|[]]] [<-|[<-|[]]]; reflexivity.
  - lia.
Defined.

Lemma select_male_narrower : selection_incl select_male select_all.
Proof.
  unfold selection_incl, select_male, select_all; cbn.
  repeat split; try apply incl_refl.
  intros v [<-|[]]. simpl. auto.
Defined.

Lemma narrower_selection_fewer_rows_witness :
  filtered_rows sample select_male =
  filtered_rows (filtered_rows sample select_all) select_male /\
  subseq (filtered_rows sample select_male) (filtered_rows sample select_all).
Proof.
  exact (@narrower_selection_fewer_rows sample select_male select_all
           select_male_narrower).
Defined.

Lemma selection_order_irrelevant_witness :
  filtered_rows sample
    (mkSelection ["Male"; "Female"; "Male"] ["65+"; "50-65"; "18-35"; "35-50"]
       ["never"; "former"; "current"] [1; 0] [0; 1]) =
  filtered_rows sample select_all.
Proof.
  apply (@selection_order_irrelevant sample
           (mkSelection ["Male"; "Female"; "Male"]
              ["65+"; "50-65"; "18-35"; "35-50"]
              ["never"; "former"; "current"] [1; 0] [0; 1]) select_all);
    unfold selection_incl, select_all; cbn;
    repeat split; intros v Hv; simpl in *; intuition.
Defined.

(* ------------------------------------------------------------------ *)
(** ** The correlation matrix in float64 *)







Lemma f64_clip_one : F64.clip PrimFloat.one = PrimFloat.one.
Proof. reflexivity. Qed.



(** On the sample the float64 matrix has 1.0 on its diagonal, and its
    coefficient of HbA1c_level and blood_glucose_level is
    0.042857244559314805. *)
Example correlationMatrix_f64_sample :
  let m := correlationMatrix_f64 F64.Q2F (mkFrame sample []) in
  map (fun i => F64.entry m i i) [0; 1; 2; 3]%nat =
    repeat (Some PrimFloat.one) 4 /\
  F64.entry m 0 1 = Some F64.sample_r01 /\
  F64.entry m 1 0 = Some F64.sample_r01.
Proof. vm_compute. repeat split. Qed.
